(** * PySpringApplication: the bootstrap sequence of [run]

    A shallow embedding of
    [py_spring_core/core/application/py_spring_application.py].

    The orchestrator is sequential Python that calls out to collaborators
    which live outside this file of the repository (the application context,
    the class scanner, the type-checking service, the entity providers, the
    component and controller instances, loguru, FastAPI, uvicorn).  Every
    such call is recorded in a chronological trace together with how it
    ended, and the collaborators are a parameter: a [World] says, for every
    call and the trace before it, whether the call raises and what it
    returns.  Exceptions, [for] loops and [try]/[finally] are those of
    Python. *)

From Stdlib Require Import List String Bool Arith Lia.
Import ListNotations.
Open Scope string_scope.
Open Scope list_scope.

Set Implicit Arguments.

(** ** Data *)

(** Classes found by the scanner or contributed by a provider, by name. *)
Definition cls := string.
(** An [EntityProvider] object handed to the constructor. *)
Definition provider := string.
(** A singleton [Component] instance held by the application context. *)
Definition component_instance := string.
(** A [RestController] instance held by the application context. *)
Definition controller_instance := string.
(** A Python exception object. *)
Definition exn := string.

(** The four keys of [classes_with_handlers]. *)
Inductive AppEntities : Set :=
| Component
| RestController
| BeanCollection
| Properties.

(** [ComponentLifeCycle], as used by [__init_app] and [run]. *)
Inductive ComponentLifeCycle : Set :=
| Init
| Destruction.

(** Modelled from the spec: the enum [TypeCheckingMode] is declared in
    [application_config], outside this file.  The spec gives the severity
    as one of Strict, Basic or some other configured value. *)
Inductive TypeCheckingMode : Set :=
| Strict
| Basic
| OtherMode (name : string).

(** The router object a controller hands to [include_router]. *)
Record APIRouter : Set := { prefix : string }.

(** ** Calls to the collaborators *)

Inductive event : Set :=
| logger_add (log_file_path : string)
| logger_debug (message : string)
| logger_warning (error : exn)
| scan_classes_for_file_paths
| get_classes
| get_entities (p : provider)
| register_component (c : cls)
| register_controller (c : cls)
| set_app (c : cls)
| get_router_prefix (c : cls)
| set_router (c : cls) (r : APIRouter)
| register_bean_collection (c : cls)
| register_properties (c : cls)
| register_entity_provider (p : provider)
| set_context (p : provider)
| type_checking
| load_properties
| init_ioc_container
| inject_dependencies_for_app_entities
| set_all_file_paths
| validate_entity_providers
| provider_init (p : provider)
| get_singleton_component_instances
| finish_initialization_cycle (i : component_instance)
| finish_destruction_cycle (i : component_instance)
| get_controller_instances
| register_routes (k : controller_instance)
| get_router (k : controller_instance)
| include_router (r : APIRouter)
| register_middlewares (k : controller_instance)
| uvicorn_run.

(** One line of the trace: the call and how it ended. *)
Inductive entry : Set :=
| Ok (e : event)
| Failed (e : event) (x : exn).

Definition event_of (t : entry) : event :=
  match t with Ok e => e | Failed e _ => e end.

Definition is_ok (t : entry) : bool :=
  match t with Ok _ => true | Failed _ _ => false end.

Definition AppEntities_eq_dec (a b : AppEntities) : {a = b} + {a <> b}.
Proof. decide equality. Defined.

Definition APIRouter_eq_dec (a b : APIRouter) : {a = b} + {a <> b}.
Proof. decide equality; apply string_dec. Defined.

Definition event_eq_dec (a b : event) : {a = b} + {a <> b}.
Proof. decide equality; try apply string_dec; apply APIRouter_eq_dec. Defined.

Definition entry_eq_dec (a b : entry) : {a = b} + {a <> b}.
Proof. decide equality; try apply string_dec; apply event_eq_dec. Defined.

(** ** The world around the orchestrator *)

Record World : Type := {
  (** constructor argument and configuration snapshot *)
  entity_providers : list provider;
  (** [entity_providers] is annotated [Iterable[EntityProvider]]: a list or
      a tuple can be walked again and again, a generator or another
      one-shot iterator only once *)
  entity_providers_reiterable : bool;
  log_file_path : option string;
  type_checking_mode : TypeCheckingMode;
  server_enabled : bool;
  (** does this call raise, given the trace so far? *)
  raises : list entry -> event -> option exn;
  (** what the calls return *)
  classes_found : list cls;
  entities_of : provider -> list cls;
  issubclass : cls -> AppEntities -> bool;
  router_prefix_of : cls -> string;
  type_checking_report : option exn;
  singleton_component_instances : list entry -> list component_instance;
  controller_instances : list entry -> list controller_instance;
  router_of : controller_instance -> APIRouter
}.

(** ** Effects: trace, attributes of [self], exceptions *)

Record app_state : Type := {
  trace : list entry;
  scanned_classes : option (list cls)
}.

Definition initial_state : app_state :=
  {| trace := []; scanned_classes := None |}.

Inductive outcome (A : Type) : Type :=
| Returned (a : A)
| Raised (x : exn).
Arguments Raised {A} x.

Definition M (A : Type) : Type := app_state -> outcome A * app_state.

Definition ret {A} (a : A) : M A := fun s => (Returned a, s).

Definition raise {A} (x : exn) : M A := fun s => (Raised x, s).

Definition bind {A B} (m : M A) (k : A -> M B) : M B := fun s =>
  match m s with
  | (Returned a, s1) => k a s1
  | (Raised x, s1) => (Raised x, s1)
  end.

Declare Scope py_scope.
Delimit Scope py_scope with py.
Notation "x <- m ;; k" := (bind m (fun x => k))
  (at level 61, m at next level, right associativity) : py_scope.
Notation "m ;; k" := (bind m (fun _ => k))
  (at level 61, right associativity) : py_scope.
Open Scope py_scope.

(** [for x in l: body x] *)
Fixpoint for_each {A} (l : list A) (body : A -> M unit) : M unit :=
  match l with
  | [] => ret tt
  | x :: rest => body x ;; for_each rest body
  end.

(** [try: body finally: cleanup]: the cleanup always runs; when it raises,
    its exception is the one that leaves the statement. *)
Definition try_finally {A} (body : M A) (cleanup : M unit) : M A := fun s =>
  let (r, s1) := body s in
  match cleanup s1 with
  | (Returned _, s2) => (r, s2)
  | (Raised x, s2) => (Raised x, s2)
  end.

Definition record_entry (s : app_state) (t : entry) : app_state :=
  {| trace := trace s ++ [t]; scanned_classes := scanned_classes s |}.

Definition set_scanned_classes (l : list cls) : M unit := fun s =>
  (Returned tt, {| trace := trace s; scanned_classes := Some l |}).

Definition get_scanned_classes : M (list cls) := fun s =>
  match scanned_classes s with
  | Some l => (Returned l, s)
  | None => (Raised "AttributeError: scanned_classes", s)
  end.

Section Program.

Variable w : World.

(** A call that returns a value computed by the collaborator. *)
Definition call_for {A} (e : event) (result : list entry -> A) : M A := fun s =>
  match raises w (trace s) e with
  | Some x => (Raised x, record_entry s (Failed e x))
  | None => (Returned (result (trace s)), record_entry s (Ok e))
  end.

(** A call made for its effect. *)
Definition call (e : event) : M unit := call_for e (fun _ => tt).

(** ** The methods of [PySpringApplication] *)

Definition __configure_logging : M unit :=
  match log_file_path w with
  | None => ret tt
  | Some "" => ret tt
  | Some path => call (logger_add path)
  end.

Definition _scan_classes_for_project : M unit :=
  call scan_classes_for_file_paths ;;
  classes <- call_for get_classes (fun _ => classes_found w) ;;
  set_scanned_classes classes.

Definition _handle_register_component (_cls : cls) : M unit :=
  call (register_component _cls).

Definition _handle_register_rest_controller (_cls : cls) : M unit :=
  call (logger_debug
          ("[REST CONTROLLER INIT] Register router for controller: " ++ _cls)%string) ;;
  call (register_controller _cls) ;;
  call (set_app _cls) ;;
  router_prefix <-
    call_for (get_router_prefix _cls) (fun _ => router_prefix_of w _cls) ;;
  call (logger_debug
          ("[REST CONTROLLER INIT] Register router with prefix: "
             ++ router_prefix)%string) ;;
  call (set_router _cls {| prefix := router_prefix |}).

Definition _handle_register_bean_collection (_cls : cls) : M unit :=
  call (logger_debug
          ("[BEAN COLLECTION INIT] Register bean collection: " ++ _cls)%string) ;;
  call (register_bean_collection _cls).

Definition _handle_register_properties (_cls : cls) : M unit :=
  call (logger_debug ("[PROPERTIES INIT] Register properties: " ++ _cls)%string) ;;
  call (register_properties _cls).

(** The dictionary built by [__init__], in insertion order. *)
Definition classes_with_handlers : list (AppEntities * (cls -> M unit)) :=
  [ (Component, _handle_register_component);
    (RestController, _handle_register_rest_controller);
    (BeanCollection, _handle_register_bean_collection);
    (Properties, _handle_register_properties) ].

Definition _register_app_entities (classes : list cls) : M unit :=
  for_each classes (fun _cls =>
    for_each classes_with_handlers (fun item =>
      let (_target_cls, handler) := item in
      if negb (issubclass w _cls _target_cls) then ret tt
      else handler _cls)).

Definition _register_all_entities_from_providers : M unit :=
  for_each (entity_providers w) (fun p =>
    entities <- call_for (get_entities p) (fun _ => entities_of w p) ;;
    _register_app_entities entities).

Definition _register_entity_providers (providers : list provider) : M unit :=
  for_each providers (fun p =>
    call (register_entity_provider p) ;;
    call (set_context p)).

Definition _init_providers (providers : list provider) : M unit :=
  for_each providers (fun p => call (provider_init p)).

Definition _type_checking : M unit :=
  optional_error <- call_for type_checking (fun _ => type_checking_report w) ;;
  match optional_error with
  | Some error =>
      match type_checking_mode w with
      | Strict => raise error
      | Basic => call (logger_warning error)
      | OtherMode _ => ret tt
      end
  | None => ret tt
  end.

Definition _handle_singleton_components_life_cycle
    (life_cycle : ComponentLifeCycle) : M unit :=
  components <-
    call_for get_singleton_component_instances
             (singleton_component_instances w) ;;
  for_each components (fun component =>
    match life_cycle with
    | Init => call (finish_initialization_cycle component)
    | Destruction => call (finish_destruction_cycle component)
    end).

(** What [for provider in self.entity_providers] walks through once an
    earlier walk has gone to the end: the same providers when the object
    is a collection, nothing when it is a one-shot iterator, which the first
    walk, in [_register_all_entities_from_providers], has exhausted. *)
Definition entity_providers_again : list provider :=
  if entity_providers_reiterable w then entity_providers w else [].

Definition __init_app : M unit :=
  _scan_classes_for_project ;;
  _register_all_entities_from_providers ;;
  (classes <- get_scanned_classes ;; _register_app_entities classes) ;;
  _register_entity_providers entity_providers_again ;;
  _type_checking ;;
  call load_properties ;;
  call init_ioc_container ;;
  call inject_dependencies_for_app_entities ;;
  call set_all_file_paths ;;
  call validate_entity_providers ;;
  _init_providers entity_providers_again ;;
  _handle_singleton_components_life_cycle Init.

Definition __init_controllers : M unit :=
  controllers <-
    call_for get_controller_instances (controller_instances w) ;;
  for_each controllers (fun controller =>
    call (register_routes controller) ;;
    router <- call_for (get_router controller) (fun _ => router_of w controller) ;;
    call (include_router router) ;;
    call (register_middlewares controller)).

Definition __run_server : M unit := call uvicorn_run.

(** The [try] block of [run]. *)
Definition run_body : M unit :=
  __configure_logging ;;
  __init_app ;;
  __init_controllers ;;
  (if server_enabled w then __run_server else ret tt).

Definition run : M unit :=
  try_finally run_body (_handle_singleton_components_life_cycle Destruction).

End Program.

(** * Vocabulary of the statements *)

(** ** Results and traces *)

(** How a program ended, and the trace it left. *)
Definition outcome_of {A} (p : outcome A * app_state) : outcome A := fst p.
Definition final_trace {A} (p : outcome A * app_state) : list entry :=
  trace (snd p).

(** The events of a trace, whatever their ending. *)
Definition events (t : list entry) : list event := map event_of t.

(** [only p] holds of the trace lines whose call satisfies [p]. *)
Definition only (p : event -> bool) (t : entry) : Prop := p (event_of t) = true.

(** Every line a program adds to the trace satisfies [q], however the
    program ends. *)
Definition emits {A} (q : entry -> Prop) (m : M A) : Prop :=
  forall s, exists new, final_trace (m s) = trace s ++ new /\ Forall q new.

(** The program never returns normally. *)
Definition never_returns {A} (m : M A) : Prop :=
  forall s, exists x, outcome_of (m s) = Raised x.

(** ** The life cycle of the singleton instances *)

(** The hook the life-cycle handler calls on an instance. *)
Definition hook (life_cycle : ComponentLifeCycle) (i : component_instance) : event :=
  match life_cycle with
  | Init => finish_initialization_cycle i
  | Destruction => finish_destruction_cycle i
  end.

(** The instances whose destruction hook a trace shows, in order. *)
Definition destroyed (t : list entry) : list component_instance :=
  flat_map (fun line => match event_of line with
                        | finish_destruction_cycle i => [i]
                        | _ => []
                        end) t.

(** Any call but a destruction hook. *)
Definition not_destruction_hook (e : event) : bool :=
  match e with finish_destruction_cycle _ => false | _ => true end.

(** The behaviour the destroy phase would have if it were best-effort:
    every instance the context reports gets its destruction hook called,
    and the pass itself never lets a hook's exception out. *)
Definition teardown_is_best_effort (w : World) : Prop :=
  forall s i,
    raises w (trace s) get_singleton_component_instances = None ->
    In i (singleton_component_instances w (trace s)) ->
    let r := _handle_singleton_components_life_cycle w Destruction s in
    In i (destroyed (final_trace r)) /\ outcome_of r = Returned tt.

(** Two singleton instances; the destruction hook of the first raises. *)
Definition failing_hook_world : World := {|
  entity_providers := [];
  entity_providers_reiterable := true;
  log_file_path := None;
  type_checking_mode := Basic;
  server_enabled := false;
  raises := fun _ e =>
    match e with
    | finish_destruction_cycle i =>
        if String.eqb i "cache" then Some "RuntimeError: cache is busy" else None
    | _ => None
    end;
  classes_found := [];
  entities_of := fun _ => [];
  issubclass := fun _ _ => false;
  router_prefix_of := fun _ => "";
  type_checking_report := None;
  singleton_component_instances := fun _ => ["cache"; "mailer"];
  controller_instances := fun _ => [];
  router_of := fun _ => {| prefix := "" |}
|}.

(** ** The [try] block of [run], statement by statement *)

(** [m1 ;; m2 ;; ... ;; mn] *)
Fixpoint sequence (steps : list (M unit)) : M unit :=
  match steps with
  | [] => ret tt
  | m :: rest => m ;; sequence rest
  end.

(** The third statement of [__init_app]:
    [self._register_app_entities(self.scanned_classes)]. *)
Definition local_registration (w : World) : M unit :=
  classes <- get_scanned_classes ;; _register_app_entities w classes.

(** The last statement of the [try] block:
    [if self.app_config.server_config.enabled: self.__run_server()]. *)
Definition serve_if_enabled (w : World) : M unit :=
  if server_enabled w then __run_server w else ret tt.

(** The statements of [__init_app], in program order. *)
Definition init_app_steps (w : World) : list (M unit) :=
  [ _scan_classes_for_project w;
    _register_all_entities_from_providers w;
    local_registration w;
    _register_entity_providers w (entity_providers_again w);
    _type_checking w;
    call w load_properties;
    call w init_ioc_container;
    call w inject_dependencies_for_app_entities;
    call w set_all_file_paths;
    call w validate_entity_providers;
    _init_providers w (entity_providers_again w);
    _handle_singleton_components_life_cycle w Init ].

(** The statements of the [try] block of [run], with [__init_app] inlined. *)
Definition run_body_steps (w : World) : list (M unit) :=
  __configure_logging w
    :: init_app_steps w ++ [ __init_controllers w; serve_if_enabled w ].

(** No restriction on the calls made: used for "the trace only grows". *)
Definition any_call (e : event) : bool := true.

(** Calls that are made only once a milestone is reached: [p] is false on
    the calls under watch, [Good] is the milestone; before every watched
    line of [t], the trace satisfies [Good]. *)
Definition guarded (p : event -> bool) (Good : list entry -> Prop)
    (t : list entry) : Prop :=
  forall pre line post,
    t = pre ++ line :: post -> p (event_of line) = false -> Good pre.

(** ** Example applications *)

(** Does the trace hold this line? *)
Definition has_line (t : list entry) (line : entry) : bool :=
  existsb (fun l => if entry_eq_dec l line then true else false) t.

(** One provider contributing a service and a configuration class; three
    local classes, one of which is nothing the framework knows; the context
    holds its singletons once the container is initialised. *)
Definition demo_world : World := {|
  entity_providers := ["plugin"];
  entity_providers_reiterable := true;
  log_file_path := Some "app.log";
  type_checking_mode := Basic;
  server_enabled := true;
  raises := fun _ _ => None;
  classes_found := ["UserService"; "UserController"; "Helper"];
  entities_of := fun _ => ["PluginService"; "PluginSettings"];
  issubclass := fun c k =>
    match k with
    | Component => String.eqb c "UserService" || String.eqb c "PluginService"
    | RestController => String.eqb c "UserController"
    | BeanCollection => false
    | Properties => String.eqb c "PluginSettings"
    end;
  router_prefix_of := fun c => ("/" ++ c)%string;
  type_checking_report := Some "TypeError: 2 issues";
  singleton_component_instances := fun t =>
    if has_line t (Ok init_ioc_container)
    then ["plugin_service"; "user_service"] else [];
  controller_instances := fun _ => ["user_controller"];
  router_of := fun _ => {| prefix := "/UserController" |}
|}.

(** The trace of a run of the demo application. *)
Definition demo_trace : list entry := final_trace (run demo_world initial_state).

(** ** Route binding *)

(** Any call but [include_router]. *)
Definition not_include_router (e : event) : bool :=
  match e with include_router _ => false | _ => true end.

(** The milestone of route binding: the injection call has returned, and
    after it the context was asked for its singleton instances and the
    initialisation hook of every instance it reported has returned. *)
Definition injected_and_initialized (w : World) (t : list entry) : Prop :=
  exists t0 t1 t2,
    t = t0 ++ Ok inject_dependencies_for_app_entities :: t1
           ++ Ok get_singleton_component_instances
           :: map (fun i => Ok (finish_initialization_cycle i))
                  (singleton_component_instances w
                     (t0 ++ Ok inject_dependencies_for_app_entities :: t1))
           ++ t2.

(** ** Classification and registration *)

(** The categories, in the order [classes_with_handlers] is iterated. *)
Definition categories : list AppEntities :=
  [Component; RestController; BeanCollection; Properties].

(** The call that registers a class with the application context under a
    category. *)
Definition registration (category : AppEntities) (c : cls) : event :=
  match category with
  | Component => register_component c
  | RestController => register_controller c
  | BeanCollection => register_bean_collection c
  | Properties => register_properties c
  end.

(** What a handler adds to the trace when all its calls return. *)
Definition handler_lines (w : World) (category : AppEntities) (c : cls)
  : list entry :=
  match category with
  | Component => [Ok (register_component c)]
  | RestController =>
      [ Ok (logger_debug
              ("[REST CONTROLLER INIT] Register router for controller: " ++ c)%string);
        Ok (register_controller c);
        Ok (set_app c);
        Ok (get_router_prefix c);
        Ok (logger_debug
              ("[REST CONTROLLER INIT] Register router with prefix: "
                 ++ router_prefix_of w c)%string);
        Ok (set_router c {| prefix := router_prefix_of w c |}) ]
  | BeanCollection =>
      [ Ok (logger_debug
              ("[BEAN COLLECTION INIT] Register bean collection: " ++ c)%string);
        Ok (register_bean_collection c) ]
  | Properties =>
      [ Ok (logger_debug ("[PROPERTIES INIT] Register properties: " ++ c)%string);
        Ok (register_properties c) ]
  end.

(** What the classification of one class adds to the trace when all the
    calls return: the lines of the handler of every category it matches. *)
Definition class_lines (w : World) (c : cls) : list entry :=
  flat_map (fun category =>
              if issubclass w c category then handler_lines w category c else [])
           categories.

(** [s'] is [s] with [lines] added to the trace. *)
Definition extends (s s' : app_state) (lines : list entry) : Prop :=
  trace s' = trace s ++ lines /\ scanned_classes s' = scanned_classes s.

(** The inner loop of [_register_app_entities], for one class. *)
Definition register_class (w : World) (c : cls) : M unit :=
  for_each (classes_with_handlers w) (fun item =>
    let (_target_cls, handler) := item in
    if negb (issubclass w c _target_cls) then ret tt else handler c).

(** [Q x t] describes the exceptions a program raises by itself, with the
    trace at that point; every other exception is that of a call, whose
    failed line is then the last of the trace. *)
Definition loud (Q : exn -> list entry -> Prop) {A} (m : M A) : Prop :=
  forall s x s',
    m s = (Raised x, s') ->
    (exists pre e, trace s' = pre ++ [Failed e x]) \/ Q x (trace s').

(** What the provider phase adds to the trace when all its calls return. *)
Definition provider_lines (w : World) : list entry :=
  flat_map (fun p => Ok (get_entities p)
                       :: flat_map (class_lines w) (entities_of w p))
           (entity_providers w).

(** ** The type-safety gate *)

(** The same world with another configured severity. *)
Definition with_mode (w : World) (mode : TypeCheckingMode) : World := {|
  entity_providers := entity_providers w;
  entity_providers_reiterable := entity_providers_reiterable w;
  log_file_path := log_file_path w;
  type_checking_mode := mode;
  server_enabled := server_enabled w;
  raises := raises w;
  classes_found := classes_found w;
  entities_of := entities_of w;
  issubclass := issubclass w;
  router_prefix_of := router_prefix_of w;
  type_checking_report := type_checking_report w;
  singleton_component_instances := singleton_component_instances w;
  controller_instances := controller_instances w;
  router_of := router_of w
|}.

(** The same world, but the type-checking service finds nothing. *)
Definition without_report (w : World) : World := {|
  entity_providers := entity_providers w;
  entity_providers_reiterable := entity_providers_reiterable w;
  log_file_path := log_file_path w;
  type_checking_mode := type_checking_mode w;
  server_enabled := server_enabled w;
  raises := raises w;
  classes_found := classes_found w;
  entities_of := entities_of w;
  issubclass := issubclass w;
  router_prefix_of := router_prefix_of w;
  type_checking_report := None;
  singleton_component_instances := singleton_component_instances w;
  controller_instances := controller_instances w;
  router_of := router_of w
|}.

(** The demo application with the severity set to some other value. *)
Definition lenient_world : World := with_mode demo_world (OtherMode "off").

(** The exception the gate raises by itself: the report, under [Strict],
    right after the [type_checking] call has returned. *)
Definition strict_abort (w : World) (x : exn) (t : list entry) : Prop :=
  type_checking_mode w = Strict
  /\ type_checking_report w = Some x
  /\ exists pre, t = pre ++ [Ok type_checking].

(** Any call but [load_properties]. *)
Definition not_load_properties (e : event) : bool :=
  match e with load_properties => false | _ => true end.

(** Any call but [get_singleton_component_instances]. *)
Definition not_get_singletons (e : event) : bool :=
  match e with get_singleton_component_instances => false | _ => true end.

(** Up to and including the gate, the statements of the [try] block. *)
Definition steps_before_gate (w : World) : list (M unit) :=
  [ __configure_logging w;
    _scan_classes_for_project w;
    _register_all_entities_from_providers w;
    local_registration w;
    _register_entity_providers w (entity_providers_again w) ].

(** The demo application under [Strict]. *)
Definition strict_world : World := with_mode demo_world Strict.

(** ** Providers *)

(** The statements of the [try] block up to the end of the provider phase. *)
Definition provider_phase (w : World) : list (M unit) :=
  [ __configure_logging w;
    _scan_classes_for_project w;
    _register_all_entities_from_providers w ].

(** The order the providers would be registered in if that happened before
    local classification: whenever the registration call of a locally
    discovered class is made, every configured provider has already been
    registered with the context and handed the context. *)
Definition providers_registered_before_local_entities (w : World) : Prop :=
  forall pre line post c category p,
    final_trace (run w initial_state) = pre ++ line :: post ->
    In c (classes_found w) ->
    issubclass w c category = true ->
    event_of line = registration category c ->
    In p (entity_providers w) ->
    In (Ok (register_entity_provider p)) pre /\ In (Ok (set_context p)) pre.

(** Any call but the registration of a provider with the context and the
    hand-over of the context to it. *)
Definition not_provider_registration (e : event) : bool :=
  match e with
  | register_entity_provider _ => false
  | set_context _ => false
  | _ => true
  end.

(** The milestone of provider registration: the trace shows the lines of
    the provider phase and, after them, the lines of the registration of
    every class the scanner found, all calls having returned. *)
Definition locally_classified (w : World) (t : list entry) : Prop :=
  exists t0 t1,
    t = t0 ++ provider_lines w
           ++ flat_map (class_lines w) (classes_found w) ++ t1.

(** Any call but the initialisation hook of a provider. *)
Definition not_provider_init (e : event) : bool :=
  match e with provider_init _ => false | _ => true end.

(** Neither a provider hook nor a provider registration. *)
Definition no_provider_call (e : event) : bool :=
  match e with
  | provider_init _ => false
  | register_entity_provider _ => false
  | _ => true
  end.

(** The providers whose initialisation hook a trace shows, in order. *)
Definition provider_inits (t : list entry) : list provider :=
  flat_map (fun line => match event_of line with
                        | provider_init p => [p]
                        | _ => []
                        end) t.

(** The providers a trace shows registered with the context, in order. *)
Definition providers_registered (t : list entry) : list provider :=
  flat_map (fun line => match line with
                        | Ok (register_entity_provider p) => [p]
                        | _ => []
                        end) t.

(** The milestone of provider initialisation: after the registration of
    every locally discovered class, the container was initialised, the
    dependencies injected and the providers validated, each call having
    returned. *)
Definition container_validated (w : World) (t : list entry) : Prop :=
  exists t0 t1 t2,
    t = t0 ++ flat_map (class_lines w) (classes_found w)
           ++ t1
           ++ [ Ok load_properties; Ok init_ioc_container;
                Ok inject_dependencies_for_app_entities;
                Ok set_all_file_paths; Ok validate_entity_providers ]
           ++ t2.

(** What [_register_entity_providers] adds when all its calls return. *)
Definition provider_registration_lines (l : list provider) : list entry :=
  flat_map (fun p => [Ok (register_entity_provider p); Ok (set_context p)]) l.

(** The statements of the [try] block between local registration and the
    initialisation of the providers. *)
Definition gate_and_container (w : World) : list (M unit) :=
  [ _type_checking w;
    call w load_properties;
    call w init_ioc_container;
    call w inject_dependencies_for_app_entities;
    call w set_all_file_paths;
    call w validate_entity_providers ].

(** The statements of the [try] block before [_init_providers]. *)
Definition steps_before_provider_init (w : World) : list (M unit) :=
  (provider_phase w ++ [local_registration w])
    ++ _register_entity_providers w (entity_providers_again w)
    :: gate_and_container w.

(** The lines of a trace whose call is under watch: [p] is false on the
    calls under watch. *)
Definition watched (p : event -> bool) (t : list entry) : list entry :=
  filter (fun line => negb (p (event_of line))) t.

(** The lines of a trace that register a provider with the context or hand
    it the context, in order. *)
Definition provider_registration_calls (t : list entry) : list entry :=
  watched not_provider_registration t.

(** The lines of a trace that call the initialisation hook of a provider,
    in order. *)
Definition provider_init_calls (t : list entry) : list entry :=
  watched not_provider_init t.

(** The statements of the [try] block up to the end of local registration. *)
Definition steps_before_provider_registration (w : World) : list (M unit) :=
  provider_phase w ++ [local_registration w].

(** Two providers handed to the constructor as a list, each contributing a
    service; one local service. *)
Definition plugins_world : World := {|
  entity_providers := ["billing"; "audit"];
  entity_providers_reiterable := true;
  log_file_path := None;
  type_checking_mode := Basic;
  server_enabled := false;
  raises := fun _ _ => None;
  classes_found := ["OrderService"];
  entities_of := fun p =>
    if String.eqb p "billing" then ["BillingService"] else ["AuditService"];
  issubclass := fun _ k => match k with Component => true | _ => false end;
  router_prefix_of := fun _ => "";
  type_checking_report := None;
  singleton_component_instances := fun _ => [];
  controller_instances := fun _ => [];
  router_of := fun _ => {| prefix := "" |}
|}.

(** The same world, the providers handed over as a one-shot iterator. *)
Definition as_one_shot (w : World) : World := {|
  entity_providers := entity_providers w;
  entity_providers_reiterable := false;
  log_file_path := log_file_path w;
  type_checking_mode := type_checking_mode w;
  server_enabled := server_enabled w;
  raises := raises w;
  classes_found := classes_found w;
  entities_of := entities_of w;
  issubclass := issubclass w;
  router_prefix_of := router_prefix_of w;
  type_checking_report := type_checking_report w;
  singleton_component_instances := singleton_component_instances w;
  controller_instances := controller_instances w;
  router_of := router_of w
|}.

(** ** Schedules of calls *)

(** [for e in schedule: call(e)]: the calls of a schedule, in order, up to
    the first that raises. *)
Definition calls (w : World) (schedule : list event) : M unit :=
  for_each schedule (fun e => call w e).

(** The result [r] of a program started in [s] follows the schedule
    [lines]: either every call of the schedule was made and returned, or
    the calls were made in order up to one that raised, whose exception
    left the program. *)
Definition follows (lines : list entry) (s : app_state)
    (r : outcome unit * app_state) : Prop :=
  (outcome_of r = Returned tt /\ final_trace r = trace s ++ lines)
  \/ (exists done e rest x,
        lines = done ++ Ok e :: rest
        /\ outcome_of r = Raised x
        /\ final_trace r = trace s ++ done ++ [Failed e x]).

(** What binding one controller adds to the trace when all the calls
    return. *)
Definition controller_lines (w : World) (k : controller_instance) : list entry :=
  [ Ok (register_routes k);
    Ok (get_router k);
    Ok (include_router (router_of w k));
    Ok (register_middlewares k) ].

(** ** Failed calls *)

(** The program adds lines to the trace in an orderly way: every call it
    makes returns, except possibly the last one, whose exception then
    leaves the program; an exception the program raises by itself, all
    calls having returned, is described by [Q]. *)
Definition orderly (Q : exn -> list entry -> Prop) {A} (m : M A) : Prop :=
  forall s, exists new,
    final_trace (m s) = trace s ++ new
    /\ match outcome_of (m s) with
       | Returned _ => forallb is_ok new = true
       | Raised x =>
           (exists pre e, new = pre ++ [Failed e x] /\ forallb is_ok pre = true)
           \/ (forallb is_ok new = true /\ Q x (trace s ++ new))
       end.

(** The calls of the destroy pass. *)
Definition destroy_pass_call (e : event) : bool :=
  match e with
  | get_singleton_component_instances => true
  | finish_destruction_cycle _ => true
  | _ => false
  end.

(** [lines] is what one destroy pass adds to the trace [t]: the request
    for the instances, then the destruction hooks in the order reported,
    up to the first call that raises. *)
Definition destroy_pass_from (w : World) (t lines : list entry) : Prop :=
  (exists x, lines = [Failed get_singleton_component_instances x])
  \/ lines = Ok get_singleton_component_instances
              :: map (fun i => Ok (finish_destruction_cycle i))
                     (singleton_component_instances w t)
  \/ (exists done i rest x,
        singleton_component_instances w t = done ++ i :: rest
        /\ lines = Ok get_singleton_component_instances
                     :: map (fun j => Ok (finish_destruction_cycle j)) done
                     ++ [Failed (finish_destruction_cycle i) x]).

(** Any call but [uvicorn.run]. *)
Definition not_uvicorn_run (e : event) : bool :=
  match e with uvicorn_run => false | _ => true end.

(** Any call but [logger.add]. *)
Definition not_logger_add (e : event) : bool :=
  match e with logger_add _ => false | _ => true end.

(** The milestone of serving: the context was asked for its controllers
    and every controller it reported was bound, all calls having returned. *)
Definition controllers_bound (w : World) (t : list entry) : Prop :=
  exists t0 t1,
    t = t0 ++ Ok get_controller_instances
           :: flat_map (controller_lines w) (controller_instances w t0) ++ t1.

(** The statements of the [try] block before the server is started. *)
Definition steps_before_serving (w : World) : list (M unit) :=
  (__configure_logging w :: init_app_steps w) ++ [__init_controllers w].

(** An initialisation hook that raises. *)
Definition failing_init_world : World := {|
  entity_providers := [];
  entity_providers_reiterable := true;
  log_file_path := None;
  type_checking_mode := Basic;
  server_enabled := true;
  raises := fun _ e =>
    match e with
    | finish_initialization_cycle i =>
        if String.eqb i "cache" then Some "ConnectionError" else None
    | _ => None
    end;
  classes_found := [];
  entities_of := fun _ => [];
  issubclass := fun _ _ => false;
  router_prefix_of := fun _ => "";
  type_checking_report := None;
  singleton_component_instances := fun _ => ["cache"; "mailer"];
  controller_instances := fun _ => [];
  router_of := fun _ => {| prefix := "" |}
|}.

(** * CrudRepository: the session-scoped operations

    A shallow embedding of
    [framework/persistence/repositories/crud_repository.py], for the
    methods that are not wrapped by [session_auto_commit] (a decorator
    declared outside this file).  The SQLModel session, the select
    statements' results and loguru are collaborators: their calls are
    recorded in a chronological trace, and a [Database] says for every call
    and the trace before it whether it raises and what it returns. *)

Module Crud.

(** A [Session] object, a model object of class [T], an identifier. *)
Definition session := nat.
Definition entity := string.
Definition ID := nat.

(** A Python exception object: an instance of [Exception], which
    [except Exception] catches, or of another [BaseException] (such as
    [KeyboardInterrupt]), which it does not. *)
Inductive error : Set :=
| Exception (name : string)
| BaseException (name : string).

(** The statements the repository builds, and the ones handed to
    [_find_by] and [_find_all_by]. *)
Inductive statement : Set :=
| select_where_id_eq (id : ID)
| select_where_id_in (ids : list ID)
| select_all
| given_statement (text : string).

(** The calls to the collaborators. *)
Inductive op : Set :=
| new_session
| add (s : session) (e : entity)
| add_all (s : session) (es : list entity)
| delete_entity (s : session) (e : entity)
| commit (s : session)
| rollback (s : session)
| close (s : session)
| logger_error (x : error)
| exec (s : session) (q : statement)
| result_first (s : session) (q : statement)
| result_all (s : session) (q : statement)
| result_iterate (s : session) (q : statement).

(** One line of the trace: the call and how it ended. *)
Inductive line : Set :=
| Done (o : op)
| Threw (o : op) (x : error).

Definition op_of (l : line) : op :=
  match l with Done o => o | Threw o _ => o end.

Definition returned (l : line) : bool :=
  match l with Done _ => true | Threw _ _ => false end.

Definition error_eq_dec (a b : error) : {a = b} + {a <> b}.
Proof. decide equality; apply string_dec. Defined.

Definition statement_eq_dec (a b : statement) : {a = b} + {a <> b}.
Proof.
  decide equality; try apply string_dec; try apply Nat.eq_dec.
  apply list_eq_dec, Nat.eq_dec.
Defined.

Definition op_eq_dec (a b : op) : {a = b} + {a <> b}.
Proof.
  decide equality; try apply string_dec; try apply Nat.eq_dec;
    try apply error_eq_dec; try apply statement_eq_dec.
  apply list_eq_dec, string_dec.
Defined.

(** The database session layer and the logger. *)
Record Database : Type := {
  throws : list line -> op -> option error;
  created_session : list line -> session;
  first_row : list line -> session -> statement -> option entity;
  all_rows : list line -> session -> statement -> list entity
}.

Inductive completion (A : Type) : Type :=
| Returns (a : A)
| Raises (x : error).
Arguments Raises {A} x.

Definition Db (A : Type) : Type := list line -> completion A * list line.

Definition ret {A} (a : A) : Db A := fun t => (Returns a, t).

Definition raise {A} (x : error) : Db A := fun t => (Raises x, t).

Definition bind {A B} (m : Db A) (k : A -> Db B) : Db B := fun t =>
  match m t with
  | (Returns a, t1) => k a t1
  | (Raises x, t1) => (Raises x, t1)
  end.

(** [try: body except Exception as error: handler error finally: cleanup].
    The handler runs for an [Exception] only, and what it raises replaces
    the exception of the body; the cleanup always runs, and what it raises
    replaces everything. *)
Definition try_except_finally {A} (body : Db A) (handler : error -> Db A)
    (cleanup : Db unit) : Db A := fun t =>
  let (r, t1) := body t in
  let (r', t2) :=
    match r with
    | Raises (Exception name) => handler (Exception name) t1
    | _ => (r, t1)
    end in
  match cleanup t2 with
  | (Returns _, t3) => (r', t3)
  | (Raises x, t3) => (Raises x, t3)
  end.

Section Repository.

Variable db : Database.

Definition call_for {A} (o : op) (result : list line -> A) : Db A := fun t =>
  match throws db t o with
  | Some x => (Raises x, t ++ [Threw o x])
  | None => (Returns (result t), t ++ [Done o])
  end.

Definition call (o : op) : Db unit := call_for o (fun _ => tt).

(** [Session(self.engine, expire_on_commit=False)] *)
Definition _create_session : Db session := call_for new_session (created_session db).

Definition _commit_operation_in_session
    (session_operation : session -> Db unit) (s : session) : Db bool :=
  bind
    (try_except_finally
       (bind (session_operation s) (fun _ => call (commit s)))
       (fun error =>
          bind (call (logger_error error)) (fun _ =>
          bind (call (rollback s)) (fun _ =>
          raise error)))
       (call (close s)))
    (fun _ => ret true).

(** [if session is None: session = self._create_session()], and
    [session or self._create_session()] for a session object, which is
    never falsy. *)
Definition session_or_create (given : option session) : Db session :=
  match given with
  | Some s => ret s
  | None => _create_session
  end.

Definition _find_by (q : statement) (given : option session) : Db (option entity) :=
  bind (session_or_create given) (fun s =>
  bind (call (exec s q)) (fun _ =>
  call_for (result_first s q) (fun t => first_row db t s q))).

Definition _find_all_by (q : statement) (given : option session) : Db (list entity) :=
  bind (session_or_create given) (fun s =>
  bind (call (exec s q)) (fun _ =>
  call_for (result_iterate s q) (fun t => all_rows db t s q))).

Definition find_by_id (id : ID) (given : option session) : Db (option entity) :=
  bind (session_or_create given) (fun s =>
  let q := select_where_id_eq id in
  bind (call (exec s q)) (fun _ =>
  call_for (result_first s q) (fun t => first_row db t s q))).

Definition find_all_by_ids (ids : list ID) (given : option session)
  : Db (list entity) :=
  bind (session_or_create given) (fun s =>
  let q := select_where_id_in ids in
  bind (call (exec s q)) (fun _ =>
  call_for (result_all s q) (fun t => all_rows db t s q))).

Definition find_all (given : option session) : Db (list entity) :=
  bind (session_or_create given) (fun s =>
  let q := select_all in
  bind (call (exec s q)) (fun _ =>
  call_for (result_all s q) (fun t => all_rows db t s q))).

Definition save (e : entity) (given : option session) : Db entity :=
  bind (session_or_create given) (fun s =>
  bind (_commit_operation_in_session (fun s' => call (add s' e)) s) (fun _ =>
  ret e)).

Definition save_all (es : list entity) (given : option session) : Db bool :=
  bind (session_or_create given) (fun s =>
  _commit_operation_in_session (fun s' => call (add_all s' es)) s).

Definition delete (e : entity) (given : option session) : Db bool :=
  bind (session_or_create given) (fun s =>
  _commit_operation_in_session (fun s' => call (delete_entity s' e)) s).

End Repository.

(** *** Vocabulary *)

Definition ops (t : list line) : list op := map op_of t.

(** The calls that change nothing: creating a session and reading. *)
Definition reads_only (o : op) : bool :=
  match o with
  | new_session | exec _ _ | result_first _ _ | result_all _ _
  | result_iterate _ _ => true
  | _ => false
  end.

(** The operation of [save], [save_all] or [delete] on a session: one
    call. *)
Definition one_call (db : Database) (o : session -> op) : session -> Db unit :=
  fun s => call db (o s).

(** A database in which nothing raises. *)
Definition healthy_database : Database := {|
  throws := fun _ _ => None;
  created_session := fun t => List.length t;
  first_row := fun _ _ _ => Some "row";
  all_rows := fun _ _ _ => ["row"]
|}.

(** A database whose [commit] raises an [Exception]. *)
Definition failing_commit_database : Database := {|
  throws := fun _ o =>
    match o with commit _ => Some (Exception "IntegrityError") | _ => None end;
  created_session := fun t => List.length t;
  first_row := fun _ _ _ => None;
  all_rows := fun _ _ _ => []
|}.

(** A database in which the operation is interrupted from the keyboard and
    closing the session then fails. *)
Definition interrupted_database : Database := {|
  throws := fun _ o =>
    match o with
    | add _ _ => Some (BaseException "KeyboardInterrupt")
    | close _ => Some (Exception "OperationalError")
    | _ => None
    end;
  created_session := fun t => List.length t;
  first_row := fun _ _ _ => None;
  all_rows := fun _ _ _ => []
|}.

(** A database in which the operation is interrupted from the keyboard. *)
Definition keyboard_interrupt_database : Database := {|
  throws := fun _ o =>
    match o with
    | add _ _ => Some (BaseException "KeyboardInterrupt")
    | _ => None
    end;
  created_session := fun t => List.length t;
  first_row := fun _ _ _ => None;
  all_rows := fun _ _ _ => []
|}.

(** The calls [save], [save_all] and [delete] hand to
    [_commit_operation_in_session] as the session operation. *)
Definition writes (o : op) : bool :=
  match o with
  | add _ _ | add_all _ _ | delete_entity _ _ => true
  | _ => false
  end.

(** What is pending when a clause is left: nothing, or an exception. *)
Definition pending {A} (a : A) (e : option error) : completion A :=
  match e with
  | None => Returns a
  | Some x => Raises x
  end.

(** The lines of the [try] clause of [_commit_operation_in_session] for the
    operation [o] on session [s], and the exception it ends with. *)
Inductive attempted (o : op) (s : session) : list line -> option error -> Prop :=
| attempted_all :
    attempted o s [Done o; Done (commit s)] None
| attempted_operation_threw x :
    attempted o s [Threw o x] (Some x)
| attempted_commit_threw x :
    attempted o s [Done o; Threw (commit s) x] (Some x).

(** The lines of the [except Exception] clause for what the [try] clause
    ended with, and the exception pending after it. *)
Inductive handled (s : session) : option error -> list line -> option error -> Prop :=
| handled_nothing :
    handled s None [] None
| handled_not_caught name :
    handled s (Some (BaseException name)) [] (Some (BaseException name))
| handled_all name :
    handled s (Some (Exception name))
            [Done (logger_error (Exception name)); Done (rollback s)]
            (Some (Exception name))
| handled_logger_threw name y :
    handled s (Some (Exception name))
            [Threw (logger_error (Exception name)) y] (Some y)
| handled_rollback_threw name y :
    handled s (Some (Exception name))
            [Done (logger_error (Exception name)); Threw (rollback s) y] (Some y).

(** The line of the [finally] clause and how the method ends. *)
Inductive closed (s : session) : option error -> line -> completion bool -> Prop :=
| closed_and_returned :
    closed s None (Done (close s)) (Returns true)
| closed_and_raised x :
    closed s (Some x) (Done (close s)) (Raises x)
| closed_threw e z :
    closed s e (Threw (close s) z) (Raises z).

(** The session a method works on, and the line of its creation if any. *)
Definition working_session (db : Database) (given : option session)
    (t : list line) : session :=
  match given with
  | Some s => s
  | None => created_session db t
  end.

Definition creation_lines (given : option session) : list line :=
  match given with
  | Some _ => []
  | None => [Done new_session]
  end.

(** The common shape of [save_all] and [delete], and of [save] before it
    returns the entity: get the session, then run the operation in it. *)
Definition write_through (db : Database) (o : session -> op)
    (given : option session) : Db bool :=
  bind (session_or_create db given) (fun s =>
  _commit_operation_in_session db (one_call db o) s).

(** The common shape of the five finders: get the session, execute the
    statement, fetch from the result. *)
Definition query {A} (db : Database) (q : statement)
    (fetch : session -> statement -> op)
    (result : list line -> session -> statement -> A)
    (given : option session) : Db A :=
  bind (session_or_create db given) (fun s =>
  bind (call db (exec s q)) (fun _ =>
  call_for db (fetch s q) (fun t => result t s q))).

(** What a finder of that shape does, started with the trace [t]: it only
    creates a session and reads; it creates no session when given one; and
    when it returns, it has executed the statement on the working session
    and returns what was fetched. *)
Definition reads_through {A} (db : Database) (q : statement)
    (fetch : session -> statement -> op)
    (result : list line -> session -> statement -> A)
    (given : option session) (t : list line)
    (outcome : completion A * list line) : Prop :=
  exists new,
    snd outcome = t ++ new
    /\ Forall (fun l => reads_only (op_of l) = true) new
    /\ (given <> None -> ~ In new_session (ops new))
    /\ forall v,
         fst outcome = Returns v ->
         let s := working_session db given t in
         new = creation_lines given ++ [Done (exec s q); Done (fetch s q)]
         /\ v = result (t ++ creation_lines given ++ [Done (exec s q)]) s q.

End Crud.

(** * Proofs *)

(** ** Reasoning about programs in [M] *)

Lemma bind_Returned {A B} (m : M A) (k : A -> M B) s b s' :
  bind m k s = (Returned b, s') ->
  exists a s1, m s = (Returned a, s1) /\ k a s1 = (Returned b, s').
Proof.
  unfold bind. destruct (m s) as [[a | x] s1]; intros H.
  - exists a, s1. split; [reflexivity | exact H].
  - discriminate H.
Qed.

Lemma bind_of_Returned {A B} (m : M A) (k : A -> M B) s a s1 :
  m s = (Returned a, s1) -> bind m k s = k a s1.
Proof. unfold bind. intros ->. reflexivity. Qed.

Lemma bind_of_Raised {A B} (m : M A) (k : A -> M B) s x s1 :
  m s = (Raised x, s1) -> bind m k s = (Raised x, s1).
Proof. unfold bind. intros ->. reflexivity. Qed.

Lemma bind_assoc {A B C} (m : M A) (k : A -> M B) (h : B -> M C) s :
  bind (bind m k) h s = bind m (fun a => bind (k a) h) s.
Proof. unfold bind. destruct (m s) as [[a | x] s1]; reflexivity. Qed.

Lemma bind_ext {A B} (m m' : M A) (k k' : A -> M B) s :
  m s = m' s -> (forall a s1, k a s1 = k' a s1) -> bind m k s = bind m' k' s.
Proof.
  unfold bind. intros <- Hk. destruct (m s) as [[a | x] s1]; [apply Hk | reflexivity].
Qed.

Section Emits.

Variable q : entry -> Prop.

Lemma emits_ret {A} (a : A) : emits q (ret a).
Proof. intros s. exists []. simpl. rewrite app_nil_r. auto. Qed.

Lemma emits_raise {A} x : emits q (@raise A x).
Proof. intros s. exists []. simpl. rewrite app_nil_r. auto. Qed.

Lemma emits_set_scanned_classes l : emits q (set_scanned_classes l).
Proof. intros s. exists []. simpl. rewrite app_nil_r. auto. Qed.

Lemma emits_get_scanned_classes : emits q get_scanned_classes.
Proof.
  intros s. exists []. unfold get_scanned_classes, final_trace.
  destruct (scanned_classes s); simpl; rewrite app_nil_r; auto.
Qed.

Lemma emits_bind {A B} (m : M A) (k : A -> M B) :
  emits q m -> (forall a, emits q (k a)) -> emits q (bind m k).
Proof.
  intros Hm Hk s. destruct (Hm s) as (n1 & E1 & F1).
  unfold bind, final_trace in *. destruct (m s) as [[a | x] s1]; simpl in *.
  - destruct (Hk a s1) as (n2 & E2 & F2). exists (n1 ++ n2).
    unfold final_trace in E2. rewrite E2, E1, app_assoc.
    split; [reflexivity | apply Forall_app; auto].
  - exists n1. auto.
Qed.

Lemma emits_for_each {A} (l : list A) (body : A -> M unit) :
  (forall x, emits q (body x)) -> emits q (for_each l body).
Proof.
  intros Hb. induction l as [| x l IH]; simpl.
  - apply emits_ret.
  - apply emits_bind; auto.
Qed.

Lemma emits_try_finally {A} (body : M A) (cleanup : M unit) :
  emits q body -> emits q cleanup -> emits q (try_finally body cleanup).
Proof.
  intros Hb Hc s. destruct (Hb s) as (n1 & E1 & F1).
  unfold try_finally, final_trace in *. destruct (body s) as [r s1]; simpl in *.
  destruct (Hc s1) as (n2 & E2 & F2). unfold final_trace in E2.
  exists (n1 ++ n2). split; [| apply Forall_app; auto].
  destruct (cleanup s1) as [[u | x] s2]; simpl in *;
    rewrite E2, E1, app_assoc; reflexivity.
Qed.

Lemma emits_never_returns {A B} (m : M A) (k : A -> M B) :
  emits q m -> never_returns m -> emits q (bind m k).
Proof.
  intros Hm Hn s. destruct (Hm s) as (n1 & E1 & F1).
  destruct (Hn s) as (x & Hx). exists n1. split; [| exact F1].
  unfold bind, final_trace, outcome_of in *.
  destruct (m s) as [[a | y] s1]; simpl in *; [discriminate Hx | exact E1].
Qed.

Variable w : World.

Lemma emits_call_for {A} e (f : list entry -> A) :
  q (Ok e) -> (forall x, q (Failed e x)) -> emits q (call_for w e f).
Proof.
  intros Hok Hfail s. unfold call_for, final_trace.
  destruct (raises w (trace s) e) as [x |]; simpl.
  - exists [Failed e x]. auto.
  - exists [Ok e]. auto.
Qed.

Lemma emits_call e :
  q (Ok e) -> (forall x, q (Failed e x)) -> emits q (call w e).
Proof. apply emits_call_for. Qed.

End Emits.

(** ** Loops of calls and the life-cycle handler *)

Lemma final_trace_record (s : app_state) (t : entry) :
  trace (record_entry s t) = trace s ++ [t].
Proof. reflexivity. Qed.

Lemma Forall_is_ok_map_Ok {A} (f : A -> event) (l : list A) :
  Forall (fun t => is_ok t = true) (map (fun x => Ok (f x)) l).
Proof. induction l; simpl; constructor; auto. Qed.

(** A trace line that failed, behind lines that did not, is found at one
    place only. *)
Lemma failed_after_ok_unique (oks pre post : list entry) e x e' x' :
  Forall (fun t => is_ok t = true) oks ->
  oks ++ [Failed e x] = pre ++ Failed e' x' :: post ->
  pre = oks /\ e' = e /\ x' = x /\ post = [].
Proof.
  intros Hok. revert pre. induction Hok as [| a oks Ha _ IH]; intros pre H.
  - destruct pre as [| p pre]; simpl in H.
    + injection H as He Hx Hp. subst. auto.
    + injection H as _ H. destruct pre; discriminate H.
  - destruct pre as [| p pre]; simpl in H.
    + injection H as Ea _. subst a. discriminate Ha.
    + injection H as Hp H. destruct (IH _ H) as (Hq & He & Hx & Hpost).
      subst. auto.
Qed.

Lemma no_failed_in_ok (oks pre post : list entry) e x :
  Forall (fun t => is_ok t = true) oks ->
  oks <> pre ++ Failed e x :: post.
Proof.
  intros Hok ->. apply Forall_app in Hok as [_ Hok].
  inversion Hok as [| ? ? H _]. discriminate H.
Qed.

Section Loops.

Variable w : World.

Lemma call_for_cases {A} e (f : list entry -> A) s :
  call_for w e f s = (Returned (f (trace s)), record_entry s (Ok e))
  \/ exists x, call_for w e f s = (Raised x, record_entry s (Failed e x)).
Proof.
  unfold call_for. destruct (raises w (trace s) e) as [x |]; eauto.
Qed.

Lemma call_for_Returned {A} e (f : list entry -> A) s a s' :
  call_for w e f s = (Returned a, s') ->
  a = f (trace s) /\ s' = record_entry s (Ok e).
Proof.
  unfold call_for. destruct (raises w (trace s) e); intros H;
    [discriminate H | injection H as <- <-; auto].
Qed.

Lemma call_cases e s :
  call w e s = (Returned tt, record_entry s (Ok e))
  \/ exists x, call w e s = (Raised x, record_entry s (Failed e x)).
Proof. apply call_for_cases. Qed.

Lemma call_Returned e s u s' :
  call w e s = (Returned u, s') -> s' = record_entry s (Ok e).
Proof. intros H. apply call_for_Returned in H. tauto. Qed.

(** [for x in l: call(f x)] either makes every call, or stops at the first
    call that raises and lets that exception out. *)
Lemma for_each_call_cases {A} (f : A -> event) (l : list A) s :
  (outcome_of (for_each l (fun x => call w (f x)) s) = Returned tt
   /\ final_trace (for_each l (fun x => call w (f x)) s) =
        trace s ++ map (fun x => Ok (f x)) l)
  \/ (exists done c rest x,
        l = done ++ c :: rest
        /\ outcome_of (for_each l (fun x => call w (f x)) s) = Raised x
        /\ final_trace (for_each l (fun x => call w (f x)) s) =
             trace s ++ map (fun x => Ok (f x)) done ++ [Failed (f c) x]).
Proof.
  revert s. induction l as [| a l IH]; intros s.
  - left. unfold final_trace. simpl. rewrite app_nil_r. auto.
  - cbn [for_each]. destruct (call_cases (f a) s) as [E | [x E]].
    + erewrite bind_of_Returned by exact E.
      destruct (IH (record_entry s (Ok (f a))))
        as [[Ho Ht] | (done & c & rest & x & El & Ho & Ht)].
      * left. split; [exact Ho |]. rewrite Ht, final_trace_record, <- app_assoc.
        reflexivity.
      * right. exists (a :: done), c, rest, x. subst l.
        split; [reflexivity |]. split; [exact Ho |].
        rewrite Ht, final_trace_record, <- app_assoc. reflexivity.
    + erewrite bind_of_Raised by exact E.
      right. exists [], a, l, x. unfold final_trace, outcome_of. simpl. auto.
Qed.

Lemma life_cycle_as_hooks life_cycle s :
  _handle_singleton_components_life_cycle w life_cycle s =
  bind (call_for w get_singleton_component_instances
                 (singleton_component_instances w))
       (fun components => for_each components (fun i => call w (hook life_cycle i))) s.
Proof. destruct life_cycle; reflexivity. Qed.

(** The three ways one pass of the life-cycle handler can go. *)
Lemma life_cycle_cases life_cycle s :
  let r := _handle_singleton_components_life_cycle w life_cycle s in
  let instances := singleton_component_instances w (trace s) in
  (exists x, outcome_of r = Raised x
     /\ final_trace r = trace s ++ [Failed get_singleton_component_instances x])
  \/ (outcome_of r = Returned tt
      /\ final_trace r =
           trace s ++ Ok get_singleton_component_instances
             :: map (fun i => Ok (hook life_cycle i)) instances)
  \/ (exists done i rest x,
        instances = done ++ i :: rest
        /\ outcome_of r = Raised x
        /\ final_trace r =
             trace s ++ Ok get_singleton_component_instances
               :: map (fun i => Ok (hook life_cycle i)) done
               ++ [Failed (hook life_cycle i) x]).
Proof.
  cbv zeta. rewrite life_cycle_as_hooks.
  destruct (call_for_cases get_singleton_component_instances
              (singleton_component_instances w) s) as [E | [x E]].
  - erewrite bind_of_Returned by exact E. right.
    destruct (for_each_call_cases (hook life_cycle)
                (singleton_component_instances w (trace s))
                (record_entry s (Ok get_singleton_component_instances)))
      as [[Ho Ht] | (done & c & rest & x & El & Ho & Ht)].
    + left. split; [exact Ho |]. rewrite Ht, final_trace_record, <- app_assoc.
      reflexivity.
    + right. exists done, c, rest, x. split; [exact El |]. split; [exact Ho |].
      rewrite Ht, final_trace_record, <- app_assoc. reflexivity.
  - erewrite bind_of_Raised by exact E.
    left. exists x. unfold outcome_of, final_trace. simpl. auto.
Qed.

End Loops.

(** ** Which calls a method can make *)

Ltac emits_step :=
  lazymatch goal with
  | |- emits _ (ret _) => apply emits_ret
  | |- emits _ (raise _) => apply emits_raise
  | |- emits _ (set_scanned_classes _) => apply emits_set_scanned_classes
  | |- emits _ get_scanned_classes => apply emits_get_scanned_classes
  | |- emits _ (call _ _) => apply emits_call; [reflexivity | intros ?; reflexivity]
  | |- emits _ (call_for _ _ _) =>
      apply emits_call_for; [reflexivity | intros ?; reflexivity]
  | |- emits _ (bind _ _) => apply emits_bind; [| intros ?]
  | |- emits _ (try_finally _ _) => apply emits_try_finally
  | |- emits _ (for_each (classes_with_handlers _) _) =>
      unfold classes_with_handlers; cbn [for_each]
  | |- emits _ (for_each _ _) => apply emits_for_each; intros ?
  | |- emits _ (if ?b then _ else _) => destruct b
  | |- emits _ (match ?x with _ => _ end) => destruct x
  | |- emits _ _ =>
      progress unfold run, run_body, __run_server, __init_controllers, __init_app,
        _handle_singleton_components_life_cycle, _type_checking, _init_providers,
        _register_entity_providers, _register_all_entities_from_providers,
        _register_app_entities, _handle_register_properties,
        _handle_register_bean_collection, _handle_register_rest_controller,
        _handle_register_component, _scan_classes_for_project,
        __configure_logging
  end.

Ltac emits_auto := repeat emits_step.

(** ** The destroy phase *)

Lemma destroyed_app t u : destroyed (t ++ u) = destroyed t ++ destroyed u.
Proof. apply flat_map_app. Qed.

Lemma destroyed_hooks (f : component_instance -> entry) l :
  (forall i, event_of (f i) = finish_destruction_cycle i) ->
  destroyed (map f l) = l.
Proof.
  intros Hf. induction l as [| i l IH]; simpl; [reflexivity |].
  rewrite Hf. simpl. f_equal. exact IH.
Qed.

Lemma destroyed_none t : Forall (only not_destruction_hook) t -> destroyed t = [].
Proof.
  induction 1 as [| line t Hl _ IH]; simpl; [reflexivity |].
  rewrite IH, app_nil_r. unfold only in Hl.
  destruct (event_of line); try reflexivity. discriminate Hl.
Qed.

Lemma count_get_singletons_in_hooks life_cycle (l : list component_instance) :
  count_occ event_eq_dec (map (hook life_cycle) l)
            get_singleton_component_instances = 0.
Proof.
  induction l as [| i l IH]; simpl; [reflexivity |].
  destruct (event_eq_dec (hook life_cycle i) get_singleton_component_instances)
    as [E | _]; [destruct life_cycle; discriminate E | exact IH].
Qed.

Lemma firstn_through {A} (done : list A) i rest :
  firstn (S (List.length done)) (done ++ i :: rest) = done ++ [i].
Proof.
  induction done as [| a done IH]; [reflexivity |].
  cbn [List.length app]. rewrite firstn_cons. f_equal. exact IH.
Qed.

Lemma count_get_singletons_in_pass life_cycle (l : list component_instance) tail :
  count_occ event_eq_dec (events tail) get_singleton_component_instances = 0 ->
  count_occ event_eq_dec
            (events (Ok get_singleton_component_instances
                       :: map (fun i => Ok (hook life_cycle i)) l ++ tail))
            get_singleton_component_instances = 1.
Proof.
  intros Htail. unfold events in *. rewrite map_cons, map_app, map_map.
  cbn [event_of]. rewrite count_occ_cons_eq by reflexivity.
  rewrite count_occ_app, Htail.
  change (fun x => hook life_cycle x) with (hook life_cycle).
  rewrite count_get_singletons_in_hooks. reflexivity.
Qed.

Lemma try_finally_trace {A} (body : M A) (cleanup : M unit) s :
  final_trace (try_finally body cleanup s) = final_trace (cleanup (snd (body s))).
Proof.
  unfold try_finally, final_trace. destruct (body s) as [r s1]. simpl.
  destruct (cleanup s1) as [[u | x] s2]; reflexivity.
Qed.

Lemma try_finally_outcome {A} (body : M A) (cleanup : M unit) s :
  outcome_of (try_finally body cleanup s) =
  match outcome_of (cleanup (snd (body s))) with
  | Returned _ => outcome_of (body s)
  | Raised x => Raised x
  end.
Proof.
  unfold try_finally, outcome_of. destruct (body s) as [r s1]. simpl.
  destruct (cleanup s1) as [[u | x] s2]; reflexivity.
Qed.

Lemma run_body_no_destruction w : emits (only not_destruction_hook) (run_body w).
Proof. emits_auto. Qed.

Lemma events_app t u : events (t ++ u) = events t ++ events u.
Proof. apply map_app. Qed.

(** C1. Whatever the [try] block of [run] does -- complete, serve, or abort
    with an exception at any step -- the destroy phase runs exactly once,
    after it: the trace of a run is the trace of the block followed by one
    pass of the life-cycle handler in [Destruction] mode.  The block itself
    calls no destruction hook; the pass asks the context for its singleton
    instances once and calls [finish_destruction_cycle] on them in the order
    reported, on every one of them when no call of the pass raises. *)
Theorem destroy_phase_runs_exactly_once (w : World) :
  let body := run_body w initial_state in
  let instances := singleton_component_instances w (final_trace body) in
  exists teardown,
    final_trace (run w initial_state) = final_trace body ++ teardown
    /\ destroyed (final_trace body) = []
    /\ count_occ event_eq_dec (events teardown)
                 get_singleton_component_instances = 1
    /\ (exists k, destroyed teardown = firstn k instances)
    /\ (forallb is_ok teardown = true -> destroyed teardown = instances).
Proof.
  cbv zeta. unfold run. rewrite try_finally_trace.
  destruct (run_body_no_destruction w initial_state) as (new & Enew & Fnew).
  simpl in Enew.
  assert (Hbody : destroyed (final_trace (run_body w initial_state)) = []).
  { rewrite Enew. apply destroyed_none, Fnew. }
  pose proof (life_cycle_cases w Destruction (snd (run_body w initial_state))) as H.
  cbv zeta in H. fold (final_trace (run_body w initial_state)) in H.
  set (instances :=
         singleton_component_instances w (final_trace (run_body w initial_state))) in *.
  destruct H as [(x & _ & Ht) | [(_ & Ht) | (done & i & rest & x & El & _ & Ht)]];
    rewrite Ht; eexists; (split; [reflexivity |]); (split; [exact Hbody |]).
  - split; [reflexivity |]. split; [exists 0; reflexivity | discriminate].
  - split.
    { rewrite <- (app_nil_r (map _ instances)).
      apply count_get_singletons_in_pass. reflexivity. }
    assert (Ed : destroyed (Ok get_singleton_component_instances
                   :: map (fun i => Ok (hook Destruction i)) instances) = instances).
    { apply (destroyed_hooks (fun i => Ok (hook Destruction i))). reflexivity. }
    split; [| intros _; exact Ed].
    exists (List.length instances). rewrite firstn_all. exact Ed.
  - split.
    { apply count_get_singletons_in_pass. simpl.
      destruct (event_eq_dec (finish_destruction_cycle i)
                  get_singleton_component_instances) as [E | _];
        [discriminate E | reflexivity]. }
    split.
    + exists (S (List.length done)). rewrite El, firstn_through.
      change (destroyed ([Ok get_singleton_component_instances]
                ++ map (fun i => Ok (hook Destruction i)) done
                ++ [Failed (hook Destruction i) x]) = done ++ [i]).
      rewrite !destroyed_app.
      rewrite (destroyed_hooks (fun i => Ok (hook Destruction i))) by reflexivity.
      reflexivity.
    + intros Hok. simpl in Hok. rewrite forallb_app in Hok.
      apply andb_prop in Hok as [_ Hok]. discriminate Hok.
Qed.

(** *** A failing destruction hook *)

(** At [failing_hook_world] the hook of ["mailer"] is never called and the
    exception of ["cache"] leaves the handler (and [run]). *)
Lemma teardown_not_best_effort : ~ teardown_is_best_effort failing_hook_world.
Proof.
  intros H.
  destruct (H initial_state "mailer" eq_refl) as [Hin _].
  - simpl. auto.
  - vm_compute in Hin. destruct Hin as [E | []]. discriminate E.
Qed.

Example failing_hook_run :
  run failing_hook_world initial_state =
  (Raised "RuntimeError: cache is busy",
   {| trace := [ Ok scan_classes_for_file_paths; Ok get_classes;
                 Ok type_checking; Ok load_properties; Ok init_ioc_container;
                 Ok inject_dependencies_for_app_entities;
                 Ok set_all_file_paths; Ok validate_entity_providers;
                 Ok get_singleton_component_instances;
                 Ok (finish_initialization_cycle "cache");
                 Ok (finish_initialization_cycle "mailer");
                 Ok get_controller_instances;
                 Ok get_singleton_component_instances;
                 Failed (finish_destruction_cycle "cache")
                        "RuntimeError: cache is busy" ];
      scanned_classes := Some [] |}).
Proof. vm_compute. reflexivity. Qed.

(** C2 (amended). The destroy pass has no handler around the hook call: when
    the destruction hook of an instance raises, that call is the last line
    of the pass.  The hooks of the instances reported before it were called,
    in order; no hook is called on the instances reported after it; and the
    exception leaves the life-cycle handler -- and, when the pass is the one
    of the [finally] clause, [run]. *)
Theorem teardown_stops_at_first_failing_hook (w : World) s pre i x post :
  let r := _handle_singleton_components_life_cycle w Destruction s in
  final_trace r = trace s ++ pre ++ Failed (finish_destruction_cycle i) x :: post ->
  post = []
  /\ outcome_of r = Raised x
  /\ (exists done rest,
        singleton_component_instances w (trace s) = done ++ i :: rest
        /\ pre = Ok get_singleton_component_instances
                   :: map (fun j => Ok (finish_destruction_cycle j)) done)
  /\ (s = snd (run_body w initial_state) ->
      outcome_of (run w initial_state) = Raised x).
Proof.
  cbv zeta. intros H.
  assert (Hmain :
            post = []
            /\ outcome_of (_handle_singleton_components_life_cycle w Destruction s)
               = Raised x
            /\ exists done rest,
                 singleton_component_instances w (trace s) = done ++ i :: rest
                 /\ pre = Ok get_singleton_component_instances
                            :: map (fun j => Ok (finish_destruction_cycle j)) done).
  { destruct (life_cycle_cases w Destruction s)
      as [(y & Ho & Ht) | [(Ho & Ht) | (done & j & rest & y & El & Ho & Ht)]];
      rewrite Ht in H; apply app_inv_head in H.
    - apply (failed_after_ok_unique (oks := [])) in H; [| constructor].
      destruct H as (_ & E & _). discriminate E.
    - exfalso. revert H. apply no_failed_in_ok.
      constructor; [reflexivity | apply Forall_is_ok_map_Ok].
    - rewrite app_comm_cons in H. apply failed_after_ok_unique in H.
      + destruct H as (-> & E & -> & ->). injection E as ->.
        split; [reflexivity |]. split; [exact Ho |].
        exists done, rest. split; [exact El | reflexivity].
      + constructor; [reflexivity | apply Forall_is_ok_map_Ok]. }
  destruct Hmain as (Hpost & Ho & Hpre).
  split; [exact Hpost |]. split; [exact Ho |]. split; [exact Hpre |].
  intros ->. unfold run. rewrite try_finally_outcome, Ho. reflexivity.
Qed.

Lemma teardown_stops_at_first_failing_hook_witness :
  let s := snd (run_body failing_hook_world initial_state) in
  let r := _handle_singleton_components_life_cycle failing_hook_world Destruction s in
  @nil entry = []
  /\ outcome_of r = Raised "RuntimeError: cache is busy"
  /\ (exists done rest,
        singleton_component_instances failing_hook_world (trace s)
          = done ++ "cache" :: rest
        /\ [Ok get_singleton_component_instances] =
           Ok get_singleton_component_instances
             :: map (fun j => Ok (finish_destruction_cycle j)) done)
  /\ (s = snd (run_body failing_hook_world initial_state) ->
      outcome_of (run failing_hook_world initial_state)
        = Raised "RuntimeError: cache is busy").
Proof.
  apply (@teardown_stops_at_first_failing_hook failing_hook_world
           (snd (run_body failing_hook_world initial_state))
           [Ok get_singleton_component_instances] "cache"
           "RuntimeError: cache is busy" []).
  vm_compute. reflexivity.
Defined.

(** ** The body of [run] as a list of statements *)

Ltac split_steps :=
  repeat match goal with
         | |- context [match ?m ?s with _ => _ end] =>
             destruct (m s) as [[[] | ?] ?]; try reflexivity
         end.

Lemma run_body_as_steps w s : run_body w s = sequence (run_body_steps w) s.
Proof.
  unfold run_body, __init_app, run_body_steps, init_app_steps, serve_if_enabled,
    local_registration.
  cbn [sequence app]. unfold bind, ret. split_steps.
Qed.

Lemma sequence_app (a b : list (M unit)) s :
  sequence (a ++ b) s = bind (sequence a) (fun _ => sequence b) s.
Proof.
  revert s. induction a as [| m a IH]; intros s; cbn [sequence app].
  - reflexivity.
  - rewrite bind_assoc. apply bind_ext; [reflexivity | intros _ s1; apply IH].
Qed.

Lemma sequence_cons_Returned (m : M unit) rest s s' :
  sequence (m :: rest) s = (Returned tt, s') ->
  exists s1, m s = (Returned tt, s1) /\ sequence rest s1 = (Returned tt, s').
Proof.
  cbn [sequence]. intros H. apply bind_Returned in H as ([] & s1 & Hm & Hr). eauto.
Qed.

Lemma sequence_nil_Returned s s' :
  sequence [] s = (Returned tt, s') -> s' = s.
Proof. cbn. unfold ret. intros H. injection H as <-. reflexivity. Qed.

Lemma emits_sequence (q : entry -> Prop) (steps : list (M unit)) :
  Forall (emits q) steps -> emits q (sequence steps).
Proof.
  induction 1; cbn [sequence]; [apply emits_ret | apply emits_bind; auto].
Qed.

(** ** Calls that are made only once a milestone is reached *)

Section Guarded.

(** [p] is false on the calls under watch; [Good] is the milestone, a
    property of the trace that stays true as the trace grows. *)
Variable p : event -> bool.
Variable Good : list entry -> Prop.
Hypothesis Good_grows : forall t u, Good t -> Good (t ++ u).

Lemma guarded_nil : guarded p Good [].
Proof. intros [| ? ?] line post H; discriminate H. Qed.

Lemma guarded_avoid t new :
  guarded p Good t -> Forall (only p) new -> guarded p Good (t ++ new).
Proof.
  intros Ht Hnew pre line post E Hp.
  assert (Hnot : ~ In line new).
  { intros Hin. rewrite Forall_forall in Hnew. apply Hnew in Hin.
    unfold only in Hin. congruence. }
  apply app_eq_app in E as [l [[Et En] | [Ep El]]].
  - destruct l as [| a l]; cbn in En.
    + exfalso. apply Hnot. rewrite <- En. left. reflexivity.
    + injection En as <- _. apply (Ht pre line l Et Hp).
  - exfalso. apply Hnot. rewrite El. apply in_or_app. right. left. reflexivity.
Qed.

Lemma guarded_good t new : guarded p Good t -> Good t -> guarded p Good (t ++ new).
Proof.
  intros Ht Hg pre line post E Hp.
  apply app_eq_app in E as [l [[Et En] | [Ep El]]].
  - destruct l as [| a l]; cbn in En.
    + rewrite app_nil_r in Et. subst pre. exact Hg.
    + injection En as <- _. apply (Ht pre line l Et Hp).
  - subst pre. apply Good_grows, Hg.
Qed.

(** Statements [before] make none of the watched calls and establish the
    milestone when they all return; statement [it] may make watched calls;
    statements [after] make none. *)
Lemma sequence_guarded (before after : list (M unit)) (it : M unit) s :
  Forall (emits (only p)) before ->
  (forall s', sequence before s = (Returned tt, s') -> Good (trace s')) ->
  emits (only any_call) it ->
  Forall (emits (only p)) after ->
  guarded p Good (trace s) ->
  guarded p Good (final_trace (sequence (before ++ it :: after) s)).
Proof.
  intros Hb Hgood Hit Ha Hs.
  rewrite sequence_app.
  destruct (emits_sequence Hb s) as (n1 & E1 & F1).
  unfold bind, final_trace in *.
  destruct (sequence before s) as [[[] | x] s1] eqn:Eb; simpl in E1.
  - cbn [sequence]. unfold bind.
    destruct (Hit s1) as (n2 & E2 & _). unfold final_trace in E2.
    destruct (it s1) as [[[] | x] s2] eqn:Ei; simpl in E2.
    + destruct (emits_sequence Ha s2) as (n3 & E3 & F3).
      unfold final_trace in E3. rewrite E3. apply guarded_avoid; [| exact F3].
      rewrite E2. apply guarded_good; [| apply Hgood; reflexivity].
      rewrite E1. apply guarded_avoid; assumption.
    + simpl. rewrite E2. apply guarded_good; [| apply Hgood; reflexivity].
      rewrite E1. apply guarded_avoid; assumption.
  - simpl. rewrite E1. apply guarded_avoid; assumption.
Qed.

(** The same for a whole run: the destroy pass makes none of the watched
    calls either. *)
Lemma run_guarded (w : World) (before after : list (M unit)) (it : M unit) :
  run_body_steps w = before ++ it :: after ->
  p get_singleton_component_instances = true ->
  (forall i, p (finish_destruction_cycle i) = true) ->
  Forall (emits (only p)) before ->
  (forall s', sequence before initial_state = (Returned tt, s') -> Good (trace s')) ->
  Forall (emits (only p)) after ->
  guarded p Good (final_trace (run w initial_state)).
Proof.
  intros Esteps Hget Hhook Hb Hgood Ha.
  unfold run. rewrite try_finally_trace.
  assert (Hd : emits (only p) (_handle_singleton_components_life_cycle w Destruction)).
  { unfold _handle_singleton_components_life_cycle.
    apply emits_bind; [apply emits_call_for; [exact Hget | intros; exact Hget] |].
    intros l. apply emits_for_each. intros i.
    apply emits_call; [apply Hhook | intros; apply Hhook]. }
  destruct (Hd (snd (run_body w initial_state))) as (n & En & Fn).
  rewrite En. apply guarded_avoid; [| exact Fn].
  fold (final_trace (run_body w initial_state)).
  rewrite run_body_as_steps, Esteps.
  apply sequence_guarded; try assumption.
  - assert (Hall : Forall (emits (only any_call)) (run_body_steps w)).
    { unfold run_body_steps, init_app_steps, serve_if_enabled, local_registration.
      cbn [app]. repeat constructor; emits_auto. }
    rewrite Esteps in Hall. apply Forall_app in Hall as [_ Hall].
    inversion Hall. assumption.
  - apply guarded_nil.
Qed.

End Guarded.

(** ** A small application, for examples *)

Example demo_run :
  run demo_world initial_state =
  (Returned tt,
   {| trace :=
        [ Ok (logger_add "app.log");
          Ok scan_classes_for_file_paths; Ok get_classes;
          Ok (get_entities "plugin");
          Ok (register_component "PluginService");
          Ok (logger_debug "[PROPERTIES INIT] Register properties: PluginSettings");
          Ok (register_properties "PluginSettings");
          Ok (register_component "UserService");
          Ok (logger_debug
                "[REST CONTROLLER INIT] Register router for controller: UserController");
          Ok (register_controller "UserController");
          Ok (set_app "UserController");
          Ok (get_router_prefix "UserController");
          Ok (logger_debug
                "[REST CONTROLLER INIT] Register router with prefix: /UserController");
          Ok (set_router "UserController" {| prefix := "/UserController" |});
          Ok (register_entity_provider "plugin"); Ok (set_context "plugin");
          Ok type_checking; Ok (logger_warning "TypeError: 2 issues");
          Ok load_properties; Ok init_ioc_container;
          Ok inject_dependencies_for_app_entities; Ok set_all_file_paths;
          Ok validate_entity_providers;
          Ok (provider_init "plugin");
          Ok get_singleton_component_instances;
          Ok (finish_initialization_cycle "plugin_service");
          Ok (finish_initialization_cycle "user_service");
          Ok get_controller_instances;
          Ok (register_routes "user_controller");
          Ok (get_router "user_controller");
          Ok (include_router {| prefix := "/UserController" |});
          Ok (register_middlewares "user_controller");
          Ok uvicorn_run;
          Ok get_singleton_component_instances;
          Ok (finish_destruction_cycle "plugin_service");
          Ok (finish_destruction_cycle "user_service") ];
      scanned_classes := Some ["UserService"; "UserController"; "Helper"] |}).
Proof. vm_compute. reflexivity. Qed.

(** ** Route binding *)

Lemma injected_and_initialized_grows w t u :
  injected_and_initialized w t -> injected_and_initialized w (t ++ u).
Proof.
  intros (t0 & t1 & t2 & ->). exists t0, t1, (t2 ++ u).
  rewrite <- !app_assoc. cbn [app]. rewrite <- !app_assoc. cbn [app].
  rewrite <- app_assoc. reflexivity.
Qed.

Lemma step_grows (m : M unit) s o s' :
  emits (only any_call) m -> m s = (o, s') -> exists new, trace s' = trace s ++ new.
Proof.
  intros Hm E. destruct (Hm s) as (new & En & _). unfold final_trace in En.
  rewrite E in En. eauto.
Qed.

Lemma life_cycle_Returned w life_cycle s s' :
  _handle_singleton_components_life_cycle w life_cycle s = (Returned tt, s') ->
  trace s' =
    trace s ++ Ok get_singleton_component_instances
      :: map (fun i => Ok (hook life_cycle i))
             (singleton_component_instances w (trace s)).
Proof.
  intros E.
  destruct (life_cycle_cases w life_cycle s)
    as [(x & Ho & _) | [(_ & Ht) | (done & i & rest & x & _ & Ho & _)]];
    unfold outcome_of, final_trace in *; rewrite E in *; simpl in *;
    [discriminate Ho | exact Ht | discriminate Ho].
Qed.

Ltac peel H s1 H1 := apply sequence_cons_Returned in H as (s1 & H1 & H).

Lemma init_app_Returned_milestone w s' :
  sequence (__configure_logging w :: init_app_steps w) initial_state
    = (Returned tt, s') ->
  injected_and_initialized w (trace s').
Proof.
  unfold init_app_steps. intros H.
  peel H s0 H0. peel H s1 H1. peel H s2 H2. peel H s3 H3. peel H s4 H4.
  peel H s5 H5. peel H s6 H6. peel H s7 H7. peel H s8 H8. peel H s9 H9.
  peel H s10 H10. peel H s11 H11. peel H s12 H12.
  apply sequence_nil_Returned in H. subst s'.
  apply call_Returned in H8, H9, H10.
  apply step_grows in H11 as [n11 E11]; [| emits_auto].
  apply life_cycle_Returned in H12.
  exists (trace s7), (([] ++ [Ok set_all_file_paths])
                        ++ [Ok validate_entity_providers] ++ n11), [].
  rewrite app_nil_r.
  assert (E : trace s11 =
              trace s7 ++ Ok inject_dependencies_for_app_entities
                :: ([] ++ [Ok set_all_file_paths])
                   ++ [Ok validate_entity_providers] ++ n11).
  { rewrite E11. subst s10 s9 s8. rewrite !final_trace_record.
    rewrite <- !app_assoc. reflexivity. }
  rewrite H12, E, <- app_assoc. reflexivity.
Qed.

(** C4. In every run, whenever a router is handed to [include_router], the
    trace before that call shows that
    [inject_dependencies_for_app_entities] has returned and that, after it,
    [finish_initialization_cycle] has returned for every singleton instance
    the context reported. *)
Theorem routes_bound_after_injection_and_initialization
    (w : World) pre line post r :
  final_trace (run w initial_state) = pre ++ line :: post ->
  event_of line = include_router r ->
  injected_and_initialized w pre.
Proof.
  intros Et El.
  refine (@run_guarded not_include_router (injected_and_initialized w)
            (@injected_and_initialized_grows w) w
            (__configure_logging w :: init_app_steps w)
            [serve_if_enabled w] (__init_controllers w)
            eq_refl eq_refl (fun _ => eq_refl) _ _ _ pre line post Et _).
  - unfold init_app_steps, local_registration. repeat constructor; emits_auto.
  - apply init_app_Returned_milestone.
  - unfold serve_if_enabled. repeat constructor; emits_auto.
  - rewrite El. reflexivity.
Qed.

Lemma routes_bound_after_injection_and_initialization_witness :
  injected_and_initialized demo_world (firstn 30 demo_trace).
Proof.
  apply (@routes_bound_after_injection_and_initialization demo_world
           (firstn 30 demo_trace)
           (Ok (include_router {| prefix := "/UserController" |}))
           (skipn 31 demo_trace)
           {| prefix := "/UserController" |}).
  - vm_compute. reflexivity.
  - reflexivity.
Defined.

(** ** Classification and registration *)

Lemma extends_refl s : extends s s [].
Proof. split; [symmetry; apply app_nil_r | reflexivity]. Qed.

Lemma extends_trans s1 s2 s3 l1 l2 :
  extends s1 s2 l1 -> extends s2 s3 l2 -> extends s1 s3 (l1 ++ l2).
Proof.
  intros [E1 S1] [E2 S2]. split; [| congruence].
  rewrite E2, E1, app_assoc. reflexivity.
Qed.

Lemma ret_Returned {A} (a b : A) s s' : ret a s = (Returned b, s') -> s' = s.
Proof. unfold ret. intros H. injection H as _ <-. reflexivity. Qed.

Section Registration.

Variable w : World.

Lemma call_extends e s u s' :
  call w e s = (Returned u, s') -> extends s s' [Ok e].
Proof. intros H. apply call_Returned in H. subst s'. split; reflexivity. Qed.

Lemma call_for_extends {A} e (f : list entry -> A) s a s' :
  call_for w e f s = (Returned a, s') -> a = f (trace s) /\ extends s s' [Ok e].
Proof.
  intros H. apply call_for_Returned in H as [-> ->].
  split; [reflexivity | split; reflexivity].
Qed.

Ltac next_call H E :=
  let u := fresh "u" in
  let s := fresh "s" in
  let Hc := fresh "Hc" in
  apply bind_Returned in H as (u & s & Hc & H); apply call_extends in Hc as E.

Lemma handler_Returned category c s s' :
  match category with
  | Component => _handle_register_component w
  | RestController => _handle_register_rest_controller w
  | BeanCollection => _handle_register_bean_collection w
  | Properties => _handle_register_properties w
  end c s = (Returned tt, s') ->
  extends s s' (handler_lines w category c).
Proof.
  destruct category; cbn [handler_lines]; intros H.
  - apply call_extends in H. exact H.
  - unfold _handle_register_rest_controller in H.
    next_call H E1. next_call H E2. next_call H E3.
    apply bind_Returned in H as (router_prefix & s4 & Hprefix & H).
    apply call_for_extends in Hprefix as [-> E4].
    next_call H E5. apply call_extends in H.
    pose proof (extends_trans E1 (extends_trans E2 (extends_trans E3
                 (extends_trans E4 (extends_trans E5 H))))) as E.
    exact E.
  - unfold _handle_register_bean_collection in H.
    next_call H E1. apply call_extends in H. exact (extends_trans E1 H).
  - unfold _handle_register_properties in H.
    next_call H E1. apply call_extends in H. exact (extends_trans E1 H).
Qed.

Lemma register_class_Returned c s s' :
  register_class w c s = (Returned tt, s') -> extends s s' (class_lines w c).
Proof.
  unfold register_class, classes_with_handlers, class_lines, categories.
  cbn [for_each flat_map]. intros H.
  apply bind_Returned in H as ([] & s1 & H1 & H).
  apply bind_Returned in H as ([] & s2 & H2 & H).
  apply bind_Returned in H as ([] & s3 & H3 & H).
  apply bind_Returned in H as ([] & s4 & H4 & H).
  apply ret_Returned in H. subst s'.
  assert (step : forall category sa sb,
             (if negb (issubclass w c category) then ret tt
              else match category with
                   | Component => _handle_register_component w
                   | RestController => _handle_register_rest_controller w
                   | BeanCollection => _handle_register_bean_collection w
                   | Properties => _handle_register_properties w
                   end c) sa = (Returned tt, sb) ->
             extends sa sb (if issubclass w c category
                            then handler_lines w category c else [])).
  { intros category sa sb Hs. destruct (issubclass w c category); cbn [negb] in Hs.
    - apply handler_Returned, Hs.
    - apply ret_Returned in Hs. subst sb. apply extends_refl. }
  apply (step Component) in H1. apply (step RestController) in H2.
  apply (step BeanCollection) in H3. apply (step Properties) in H4.
  rewrite app_nil_r.
  exact (extends_trans H1 (extends_trans H2 (extends_trans H3 H4))).
Qed.

Lemma register_app_entities_Returned classes s s' :
  _register_app_entities w classes s = (Returned tt, s') ->
  extends s s' (flat_map (class_lines w) classes).
Proof.
  unfold _register_app_entities. fold register_class.
  revert s. induction classes as [| c classes IH]; intros s H; cbn [for_each flat_map] in *.
  - apply ret_Returned in H. subst s'. apply extends_refl.
  - apply bind_Returned in H as ([] & s1 & H1 & H).
    apply register_class_Returned in H1. apply IH in H.
    exact (extends_trans H1 H).
Qed.

(** A class that is a subclass of none of the four is skipped. *)
Lemma register_class_skip c s :
  (forall category, issubclass w c category = false) ->
  register_class w c s = (Returned tt, s).
Proof.
  intros Hnone. unfold register_class, classes_with_handlers. cbn [for_each].
  rewrite !Hnone. reflexivity.
Qed.

End Registration.

Ltac decide_lines :=
  repeat match goal with
         | |- context [entry_eq_dec ?a ?b] =>
             let E := fresh "E" in
             destruct (entry_eq_dec a b) as [E | E]; [try discriminate E |]
         | |- context [string_dec ?a ?b] => destruct (string_dec a b)
         | |- context [AppEntities_eq_dec ?a ?b] => destruct (AppEntities_eq_dec a b)
         end.

Lemma count_handler_lines w category c category' c' :
  count_occ entry_eq_dec (handler_lines w category' c')
            (Ok (registration category c)) =
  if AppEntities_eq_dec category category'
  then if string_dec c c' then 1 else 0
  else 0.
Proof.
  destruct category, category'; cbn [handler_lines registration count_occ];
    decide_lines; congruence.
Qed.

Lemma count_class_lines w category c c' :
  count_occ entry_eq_dec (class_lines w c') (Ok (registration category c)) =
  if string_dec c c' then if issubclass w c category then 1 else 0 else 0.
Proof.
  unfold class_lines, categories. cbn [flat_map].
  rewrite !count_occ_app.
  assert (H : forall category',
             count_occ entry_eq_dec
               (if issubclass w c' category' then handler_lines w category' c' else [])
               (Ok (registration category c)) =
             if AppEntities_eq_dec category category'
             then if string_dec c c'
                  then if issubclass w c category then 1 else 0 else 0
             else 0).
  { intros category'. destruct (issubclass w c' category') eqn:Hsub.
    - rewrite count_handler_lines.
      destruct (AppEntities_eq_dec category category') as [-> |]; [| reflexivity].
      destruct (string_dec c c') as [-> |]; [| reflexivity].
      rewrite Hsub. reflexivity.
    - cbn. destruct (AppEntities_eq_dec category category') as [-> |]; [| reflexivity].
      destruct (string_dec c c') as [-> |]; [| reflexivity].
      rewrite Hsub. reflexivity. }
  rewrite !H. cbn [count_occ].
  destruct category; cbn; destruct (string_dec c c'); try reflexivity;
    match goal with
    | |- context [issubclass w c ?k] => destruct (issubclass w c k)
    end; reflexivity.
Qed.

Lemma count_classes_lines w category c classes :
  count_occ entry_eq_dec (flat_map (class_lines w) classes)
            (Ok (registration category c)) =
  if issubclass w c category then count_occ string_dec classes c else 0.
Proof.
  induction classes as [| c' classes IH]; cbn [flat_map].
  - cbn. destruct (issubclass w c category); reflexivity.
  - rewrite count_occ_app, IH, count_class_lines. cbn [count_occ].
    destruct (string_dec c' c) as [-> | N].
    + destruct (string_dec c c) as [_ | N]; [| congruence].
      destruct (issubclass w c category); reflexivity.
    + destruct (string_dec c c') as [E | _]; [congruence |].
      destruct (issubclass w c category); reflexivity.
Qed.

(** C8. When [_register_app_entities] returns, the registration call of a
    class under a category has been made once for every time the class
    occurs among the candidates if the class is a subclass of the category,
    and not at all if it is not: a class matching several categories is
    registered once under each, and one occurrence is registered exactly
    once under each matching category.  A candidate that matches no category
    is skipped: no call is made for it and nothing is raised. *)
Theorem each_matching_category_registered_once (w : World) classes s :
  (forall s',
      _register_app_entities w classes s = (Returned tt, s') ->
      forall c category,
        count_occ entry_eq_dec (trace s') (Ok (registration category c)) =
        count_occ entry_eq_dec (trace s) (Ok (registration category c))
        + (if issubclass w c category then count_occ string_dec classes c else 0))
  /\ (forall c,
         (forall category, issubclass w c category = false) ->
         _register_app_entities w (c :: classes) s =
         _register_app_entities w classes s).
Proof.
  split.
  - intros s' H c category.
    apply register_app_entities_Returned in H as [Et _].
    rewrite Et, count_occ_app, count_classes_lines. reflexivity.
  - intros c Hnone. unfold _register_app_entities. cbn [for_each].
    fold (register_class w c).
    erewrite bind_of_Returned by (apply register_class_skip, Hnone).
    reflexivity.
Qed.

Lemma each_matching_category_registered_once_witness :
  (forall c category,
      count_occ entry_eq_dec
                (final_trace (_register_app_entities demo_world
                                ["UserService"; "UserController"; "Helper"]
                                initial_state))
                (Ok (registration category c)) =
      0 + (if issubclass demo_world c category
           then count_occ string_dec ["UserService"; "UserController"; "Helper"] c
           else 0))
  /\ _register_app_entities demo_world ["Helper"] initial_state =
     _register_app_entities demo_world [] initial_state.
Proof.
  destruct (@each_matching_category_registered_once demo_world
              ["UserService"; "UserController"; "Helper"] initial_state) as [H _].
  destruct (@each_matching_category_registered_once demo_world
              [] initial_state) as [_ H'].
  split.
  - apply (H _ eq_refl).
  - apply H'. intros []; reflexivity.
Defined.

(** ** Where an exception can come from *)

Section Loud.

Variable Q : exn -> list entry -> Prop.

Lemma loud_ret {A} (a : A) : loud Q (ret a).
Proof. intros s x s' H. discriminate H. Qed.

Lemma loud_set_scanned_classes l : loud Q (set_scanned_classes l).
Proof. intros s x s' H. discriminate H. Qed.

Lemma loud_call_for w {A} e (f : list entry -> A) : loud Q (call_for w e f).
Proof.
  intros s x s' H. left. unfold call_for in H.
  destruct (raises w (trace s) e) as [y |]; [| discriminate H].
  injection H as <- <-. exists (trace s), e. reflexivity.
Qed.

Lemma loud_call w e : loud Q (call w e).
Proof. apply loud_call_for. Qed.

Lemma loud_bind {A B} (m : M A) (k : A -> M B) :
  loud Q m -> (forall a, loud Q (k a)) -> loud Q (bind m k).
Proof.
  intros Hm Hk s x s' H. unfold bind in H.
  destruct (m s) as [[a | y] s1] eqn:Em.
  - apply (Hk a s1), H.
  - injection H as <- <-. apply (Hm s), Em.
Qed.

Lemma loud_for_each {A} (l : list A) (body : A -> M unit) :
  (forall a, loud Q (body a)) -> loud Q (for_each l body).
Proof.
  intros Hb. induction l; cbn [for_each]; [apply loud_ret | apply loud_bind; auto].
Qed.

End Loud.

Ltac loud_step :=
  lazymatch goal with
  | |- loud _ (ret _) => apply loud_ret
  | |- loud _ (set_scanned_classes _) => apply loud_set_scanned_classes
  | |- loud _ (call _ _) => apply loud_call
  | |- loud _ (call_for _ _ _) => apply loud_call_for
  | |- loud _ (bind _ _) => apply loud_bind; [| intros ?]
  | |- loud _ (for_each (classes_with_handlers _) _) =>
      unfold classes_with_handlers; cbn [for_each]
  | |- loud _ (for_each _ _) => apply loud_for_each; intros ?
  | |- loud _ (if ?b then _ else _) => destruct b
  | |- loud _ (match ?x with _ => _ end) => destruct x
  | |- loud _ _ =>
      progress unfold __run_server, __init_controllers, serve_if_enabled,
        _handle_singleton_components_life_cycle, _init_providers,
        _register_entity_providers, _register_all_entities_from_providers,
        _register_app_entities, _handle_register_properties,
        _handle_register_bean_collection, _handle_register_rest_controller,
        _handle_register_component, _scan_classes_for_project,
        __configure_logging
  end.

Ltac loud_auto := repeat loud_step.

Section Front.

Variable w : World.

Lemma scan_Returned s s' :
  _scan_classes_for_project w s = (Returned tt, s') ->
  trace s' = trace s ++ [Ok scan_classes_for_file_paths; Ok get_classes]
  /\ scanned_classes s' = Some (classes_found w).
Proof.
  unfold _scan_classes_for_project. intros H.
  apply bind_Returned in H as (u & s1 & H1 & H). apply call_extends in H1 as [E1 _].
  apply bind_Returned in H as (classes & s2 & H2 & H).
  apply call_for_extends in H2 as [-> [E2 _]].
  unfold set_scanned_classes in H. injection H as <-. cbn [trace scanned_classes].
  rewrite E2, E1, <- app_assoc. auto.
Qed.

Lemma providers_Returned s s' :
  _register_all_entities_from_providers w s = (Returned tt, s') ->
  extends s s' (provider_lines w).
Proof.
  unfold _register_all_entities_from_providers, provider_lines.
  revert s. induction (entity_providers w) as [| p l IH]; intros s H;
    cbn [for_each flat_map] in *.
  - apply ret_Returned in H. subst s'. apply extends_refl.
  - apply bind_Returned in H as ([] & s1 & H1 & H).
    apply bind_Returned in H1 as (entities & s0 & H0 & H1).
    apply call_for_extends in H0 as [-> E0].
    apply register_app_entities_Returned in H1. apply IH in H.
    exact (extends_trans (extends_trans E0 H1) H).
Qed.

Lemma local_registration_scanned s classes :
  scanned_classes s = Some classes ->
  local_registration w s = _register_app_entities w classes s.
Proof.
  intros E. unfold local_registration, bind, get_scanned_classes. rewrite E.
  reflexivity.
Qed.

(** From scanning to the end of local registration, only a call can raise. *)
Lemma loud_front Q (rest : M unit) :
  loud Q rest ->
  loud Q (_scan_classes_for_project w ;;
          _register_all_entities_from_providers w ;;
          local_registration w ;;
          rest).
Proof.
  intros Hrest s x s' H. unfold bind in H.
  destruct (_scan_classes_for_project w s) as [[[] | y] s1] eqn:E1.
  - apply scan_Returned in E1 as [_ Sc].
    destruct (_register_all_entities_from_providers w s1) as [[[] | y] s2] eqn:E2.
    + apply providers_Returned in E2 as [_ Sp].
      rewrite (@local_registration_scanned s2 (classes_found w)) in H by congruence.
      destruct (_register_app_entities w (classes_found w) s2) as [[[] | y] s3] eqn:E3.
      * apply (Hrest s3), H.
      * injection H as <- <-. revert E3. generalize (classes_found w). intros l.
        apply (ltac:(loud_auto) : loud Q (_register_app_entities w l)).
    + injection H as <- <-. revert E2.
      apply (ltac:(loud_auto) : loud Q (_register_all_entities_from_providers w)).
  - injection H as <- <-. revert E1.
    apply (ltac:(loud_auto) : loud Q (_scan_classes_for_project w)).
Qed.

End Front.

(** ** The type-safety gate *)

Lemma type_checking_cases w s :
  _type_checking w s =
  match raises w (trace s) type_checking with
  | Some x => (Raised x, record_entry s (Failed type_checking x))
  | None =>
      match type_checking_report w with
      | None => (Returned tt, record_entry s (Ok type_checking))
      | Some error =>
          match type_checking_mode w with
          | Strict => (Raised error, record_entry s (Ok type_checking))
          | Basic => call w (logger_warning error) (record_entry s (Ok type_checking))
          | OtherMode _ => (Returned tt, record_entry s (Ok type_checking))
          end
      end
  end.
Proof.
  unfold _type_checking, bind, call_for.
  destruct (raises w (trace s) type_checking); [reflexivity |].
  destruct (type_checking_report w); [| reflexivity].
  destruct (type_checking_mode w); reflexivity.
Qed.

Lemma run_body_ext w w' :
  (forall s, _type_checking w s = _type_checking w' s) ->
  (forall s, __configure_logging w s = __configure_logging w' s) ->
  (forall s, _scan_classes_for_project w s = _scan_classes_for_project w' s) ->
  (forall s, _register_all_entities_from_providers w s =
             _register_all_entities_from_providers w' s) ->
  (forall s, local_registration w s = local_registration w' s) ->
  (forall s, _register_entity_providers w (entity_providers_again w) s =
             _register_entity_providers w' (entity_providers_again w') s) ->
  (forall e s, call w e s = call w' e s) ->
  (forall s, _init_providers w (entity_providers_again w) s =
             _init_providers w' (entity_providers_again w') s) ->
  (forall l s, _handle_singleton_components_life_cycle w l s =
               _handle_singleton_components_life_cycle w' l s) ->
  (forall s, __init_controllers w s = __init_controllers w' s) ->
  (forall s, serve_if_enabled w s = serve_if_enabled w' s) ->
  forall s, run w s = run w' s.
Proof.
  intros Htc Hlog Hscan Hprov Hloc Hreg Hcall Hinit Hlife Hctl Hsrv s.
  assert (Happ : forall s0, __init_app w s0 = __init_app w' s0).
  { intros s0. unfold __init_app.
    fold (local_registration w). fold (local_registration w').
    do 11 (apply bind_ext; [auto | intros ? ?]). auto. }
  assert (Hbody : run_body w s = run_body w' s).
  { unfold run_body.
    fold (serve_if_enabled w). fold (serve_if_enabled w').
    do 3 (apply bind_ext; [auto | intros ? ?]). auto. }
  unfold run, try_finally. rewrite Hbody.
  destruct (run_body w' s) as [r s1]. rewrite Hlife. reflexivity.
Qed.

(** C10. With a severity that is neither [Strict] nor [Basic] the gate only
    makes the [type_checking] call: whatever the report, it returns when the
    call returns, raises nothing of its own and logs no warning; and the
    whole run is the run of the same world with an empty report. *)
Theorem other_severity_ignores_the_report (w : World) s :
  type_checking_mode w <> Strict ->
  type_checking_mode w <> Basic ->
  _type_checking w s =
    match raises w (trace s) type_checking with
    | Some x => (Raised x, record_entry s (Failed type_checking x))
    | None => (Returned tt, record_entry s (Ok type_checking))
    end
  /\ run w s = run (without_report w) s.
Proof.
  intros Hs Hb.
  assert (Htc : forall s0,
             _type_checking w s0 =
             match raises w (trace s0) type_checking with
             | Some x => (Raised x, record_entry s0 (Failed type_checking x))
             | None => (Returned tt, record_entry s0 (Ok type_checking))
             end).
  { intros s0. rewrite type_checking_cases.
    destruct (raises w (trace s0) type_checking); [reflexivity |].
    destruct (type_checking_report w); [| reflexivity].
    destruct (type_checking_mode w); [congruence | congruence | reflexivity]. }
  split; [apply Htc |].
  apply run_body_ext; try reflexivity.
  intros s0. rewrite Htc, type_checking_cases. cbn.
  destruct (raises w (trace s0) type_checking); reflexivity.
Qed.

Lemma other_severity_ignores_the_report_witness :
  _type_checking lenient_world initial_state =
    (Returned tt, record_entry initial_state (Ok type_checking))
  /\ run lenient_world initial_state =
     run (without_report lenient_world) initial_state.
Proof.
  apply (@other_severity_ignores_the_report lenient_world initial_state);
    discriminate.
Defined.

Lemma type_checking_loud w : loud (strict_abort w) (_type_checking w).
Proof.
  intros s x s' H. rewrite type_checking_cases in H.
  destruct (raises w (trace s) type_checking) as [y |].
  - injection H as <- <-. left. exists (trace s), type_checking. reflexivity.
  - destruct (type_checking_report w) as [error |] eqn:Er; [| discriminate H].
    destruct (type_checking_mode w) eqn:Em.
    + injection H as <- <-. right.
      split; [exact Em | split; [exact Er |]]. exists (trace s). reflexivity.
    + revert H. apply loud_call.
    + discriminate H.
Qed.

Lemma loud_ext Q {A} (m m' : M A) :
  (forall s, m s = m' s) -> loud Q m' -> loud Q m.
Proof. intros E H s x s' Hm. rewrite E in Hm. apply (H s), Hm. Qed.

Lemma emits_ext q {A} (m m' : M A) :
  (forall s, m s = m' s) -> emits q m' -> emits q m.
Proof. intros E H s. rewrite E. apply H. Qed.

Lemma run_body_loud w : loud (strict_abort w) (run_body w).
Proof.
  apply loud_ext with (m' := sequence (run_body_steps w));
    [apply run_body_as_steps |].
  unfold run_body_steps, init_app_steps. cbn [app sequence].
  apply loud_bind; [loud_auto | intros _].
  apply loud_front.
  apply loud_bind; [loud_auto | intros _].
  apply loud_bind; [apply type_checking_loud | intros _].
  loud_auto.
Qed.

Lemma never_returns_sequence_cut (before after : list (M unit)) (m : M unit) :
  never_returns m -> never_returns (sequence (before ++ m :: after)).
Proof.
  intros Hm. induction before as [| b before IH]; intros s; cbn [app sequence].
  - destruct (Hm s) as [x Hx]. exists x. unfold bind, outcome_of in *.
    destruct (m s) as [[a | y] s1]; simpl in *; [discriminate Hx | exact Hx].
  - unfold bind, outcome_of. destruct (b s) as [[a | y] s1].
    + apply IH.
    + exists y. reflexivity.
Qed.

Lemma emits_sequence_cut q (before after : list (M unit)) (m : M unit) :
  Forall (emits q) before -> emits q m -> never_returns m ->
  emits q (sequence (before ++ m :: after)).
Proof.
  intros Hb Hm Hn. induction Hb as [| b before Hq _ IH]; cbn [app sequence].
  - apply emits_never_returns; assumption.
  - apply emits_bind; auto.
Qed.

Lemma type_checking_never_returns w error :
  type_checking_mode w = Strict ->
  type_checking_report w = Some error ->
  never_returns (_type_checking w).
Proof.
  intros Em Er s. rewrite type_checking_cases, Er, Em.
  destruct (raises w (trace s) type_checking) as [x |]; eexists; reflexivity.
Qed.

Lemma only_not_in p t e :
  Forall (only p) t -> p e = false -> ~ In e (events t).
Proof.
  intros Ht Hp Hin. unfold events in Hin. apply in_map_iff in Hin as (line & <- & Hl).
  rewrite Forall_forall in Ht. apply Ht in Hl. unfold only in Hl. congruence.
Qed.

Lemma only_count_none p t e :
  Forall (only p) t -> p e = false -> count_occ event_eq_dec (events t) e = 0.
Proof.
  intros Ht Hp. apply count_occ_not_In. eapply only_not_in; eauto.
Qed.

Lemma destroy_pass_count w s :
  exists teardown,
    final_trace (_handle_singleton_components_life_cycle w Destruction s) =
      trace s ++ teardown
    /\ count_occ event_eq_dec (events teardown)
                 get_singleton_component_instances = 1.
Proof.
  destruct (life_cycle_cases w Destruction s)
    as [(x & _ & Ht) | [(_ & Ht) | (done & i & rest & x & _ & _ & Ht)]];
    rewrite Ht; eexists; (split; [reflexivity |]).
  - reflexivity.
  - rewrite <- (app_nil_r (map _ _)). apply count_get_singletons_in_pass. reflexivity.
  - apply count_get_singletons_in_pass. cbn.
    destruct (event_eq_dec (finish_destruction_cycle i)
                get_singleton_component_instances) as [E | _];
      [discriminate E | reflexivity].
Qed.

Lemma all_ok_app t u :
  forallb is_ok (t ++ u) = true ->
  forallb is_ok t = true /\ forallb is_ok u = true.
Proof. rewrite forallb_app. apply andb_prop. Qed.

Lemma all_ok_not_failed pre e x : forallb is_ok (pre ++ [Failed e x]) <> true.
Proof.
  intros H. apply all_ok_app in H as [_ H]. discriminate H.
Qed.

(** A life-cycle pass none of whose calls raised. *)
Lemma life_cycle_all_ok w life_cycle s :
  let r := _handle_singleton_components_life_cycle w life_cycle s in
  forallb is_ok (final_trace r) = true ->
  outcome_of r = Returned tt
  /\ final_trace r =
       trace s ++ Ok get_singleton_component_instances
         :: map (fun i => Ok (hook life_cycle i))
                (singleton_component_instances w (trace s)).
Proof.
  cbv zeta. intros Hok.
  destruct (life_cycle_cases w life_cycle s)
    as [(x & _ & Ht) | [(Ho & Ht) | (done & i & rest & x & _ & _ & Ht)]].
  - exfalso. rewrite Ht in Hok. revert Hok. apply all_ok_not_failed.
  - auto.
  - exfalso. rewrite Ht in Hok. revert Hok.
    rewrite app_comm_cons, app_assoc. apply all_ok_not_failed.
Qed.

Lemma run_body_emits_when_strict w error p :
  type_checking_mode w = Strict ->
  type_checking_report w = Some error ->
  Forall (emits (only p)) (steps_before_gate w) ->
  p type_checking = true ->
  emits (only p) (run_body w).
Proof.
  intros Em Er Hb Hp.
  apply emits_ext with (m' := sequence (run_body_steps w));
    [apply run_body_as_steps |].
  change (run_body_steps w)
    with (steps_before_gate w ++ _type_checking w
            :: skipn 6 (run_body_steps w)).
  apply emits_sequence_cut; [exact Hb | | eapply type_checking_never_returns; eauto].
  unfold _type_checking. apply emits_bind.
  - apply emits_call_for; [exact Hp | intros; exact Hp].
  - intros [e |]; [| apply emits_ret]. rewrite Em. apply emits_raise.
Qed.

(** C3. Under [Strict], with a non-empty report: [load_properties] is never
    called and the run always ends with an exception; exactly one life-cycle
    pass is made in the whole run, the destroy pass (the initialisation pass
    is never reached).  When no call of the run raises -- the type checker
    returns its report and the destroy pass goes through -- the trace ends
    with the [type_checking] call followed by the destroy pass over the
    instances the context reports, and the exception that leaves [run] is
    the report. *)
Theorem strict_type_errors_abort_before_properties (w : World) error :
  type_checking_mode w = Strict ->
  type_checking_report w = Some error ->
  let r := run w initial_state in
  ~ In load_properties (events (final_trace r))
  /\ (exists x, outcome_of r = Raised x)
  /\ count_occ event_eq_dec (events (final_trace r))
               get_singleton_component_instances = 1
  /\ (forallb is_ok (final_trace r) = true ->
      outcome_of r = Raised error
      /\ exists before,
           final_trace r =
             before ++ Ok type_checking
               :: Ok get_singleton_component_instances
               :: map (fun i => Ok (finish_destruction_cycle i))
                      (singleton_component_instances w
                         (before ++ [Ok type_checking]))).
Proof.
  intros Em Er. cbv zeta.
  assert (Hbefore : forall p,
             p = not_load_properties \/ p = not_get_singletons ->
             emits (only p) (run_body w)).
  { intros p Hp. eapply run_body_emits_when_strict; eauto.
    - unfold steps_before_gate, local_registration.
      destruct Hp as [-> | ->]; repeat constructor; emits_auto.
    - destruct Hp as [-> | ->]; reflexivity. }
  assert (Hnever : exists x, outcome_of (run_body w initial_state) = Raised x).
  { rewrite run_body_as_steps.
    change (run_body_steps w)
      with (steps_before_gate w ++ _type_checking w :: skipn 6 (run_body_steps w)).
    apply never_returns_sequence_cut. eapply type_checking_never_returns; eauto. }
  destruct Hnever as [x Hx].
  split; [| split; [| split]].
  - assert (Hrun : emits (only not_load_properties) (run w)).
    { unfold run. apply emits_try_finally; [apply Hbefore; auto | emits_auto]. }
    destruct (Hrun initial_state) as (new & E & F). cbn [trace initial_state app] in E.
    rewrite E. eapply only_not_in; [exact F | reflexivity].
  - unfold run. rewrite try_finally_outcome, Hx.
    destruct (outcome_of (_handle_singleton_components_life_cycle w Destruction
                            (snd (run_body w initial_state)))); eauto.
  - unfold run. rewrite try_finally_trace.
    destruct (destroy_pass_count w (snd (run_body w initial_state)))
      as (teardown & -> & Hc).
    destruct (Hbefore not_get_singletons (or_intror eq_refl) initial_state)
      as (new & E & F).
    unfold final_trace in E. cbn [trace initial_state app] in E. rewrite E.
    rewrite events_app, count_occ_app, Hc.
    rewrite (only_count_none _ F) by reflexivity. reflexivity.
  - unfold run. rewrite try_finally_trace, try_finally_outcome. intros Hok.
    destruct (life_cycle_all_ok w Destruction _ Hok) as [Ho Ht].
    rewrite Ho, Ht, Hx.
    destruct (run_body w initial_state) as [o s1] eqn:Eb.
    unfold outcome_of in Hx. cbn [fst snd] in *. subst o.
    destruct (run_body_loud w _ Eb) as [(pre & e & Et) | (_ & Erep & pre & Et)].
    + exfalso. rewrite Ht in Hok. apply all_ok_app in Hok as [Hok _].
      rewrite Et in Hok. revert Hok. apply all_ok_not_failed.
    + rewrite Er in Erep. injection Erep as <-. split; [reflexivity |].
      exists pre. rewrite Et, <- app_assoc. reflexivity.
Qed.

Lemma strict_type_errors_abort_before_properties_witness :
  outcome_of (run strict_world initial_state) = Raised "TypeError: 2 issues"
  /\ ~ In load_properties (events (final_trace (run strict_world initial_state))).
Proof.
  destruct (@strict_type_errors_abort_before_properties strict_world
              "TypeError: 2 issues" eq_refl eq_refl) as (Hload & _ & _ & Hok).
  split; [| exact Hload].
  apply Hok. vm_compute. reflexivity.
Defined.

(** C9. Under [Basic], with a non-empty report, when no call of the [try]
    block raises: the gate logs the report as a warning right after the
    [type_checking] call and the next call is [load_properties]; the block
    returns normally, and with the server enabled its last call is
    [uvicorn.run].  When the destroy pass raises nothing either, [run]
    returns normally. *)
Theorem basic_type_errors_are_warnings (w : World) error :
  type_checking_mode w = Basic ->
  type_checking_report w = Some error ->
  let body := run_body w initial_state in
  forallb is_ok (final_trace body) = true ->
  outcome_of body = Returned tt
  /\ (exists before after,
        final_trace body =
          before ++ Ok type_checking :: Ok (logger_warning error)
            :: Ok load_properties :: after)
  /\ (server_enabled w = true ->
      exists before, final_trace body = before ++ [Ok uvicorn_run])
  /\ (forallb is_ok (final_trace (run w initial_state)) = true ->
      outcome_of (run w initial_state) = Returned tt).
Proof.
  intros Em Er. cbv zeta. intros Hbody.
  destruct (run_body w initial_state) as [o s1] eqn:Eb.
  unfold final_trace, outcome_of in *. cbn [fst snd] in *.
  destruct o as [[] | x].
  2:{ exfalso. destruct (run_body_loud w _ Eb) as [(pre & e & Et) | (Es & _)].
      - rewrite Et in Hbody. revert Hbody. apply all_ok_not_failed.
      - congruence. }
  split; [reflexivity |].
  assert (Hrun : forallb is_ok (trace (snd (run w initial_state))) = true ->
                 fst (run w initial_state) = Returned tt).
  { intros Hok. unfold run in *.
    pose proof (try_finally_trace (run_body w)
                  (_handle_singleton_components_life_cycle w Destruction)
                  initial_state) as Et.
    pose proof (try_finally_outcome (run_body w)
                  (_handle_singleton_components_life_cycle w Destruction)
                  initial_state) as Eo.
    unfold final_trace, outcome_of in Et, Eo. rewrite Et in Hok. rewrite Eo.
    destruct (life_cycle_all_ok w Destruction _ Hok) as [Ho _].
    unfold outcome_of in Ho. rewrite Ho, Eb. reflexivity. }
  rewrite run_body_as_steps in Eb. unfold run_body_steps, init_app_steps in Eb.
  cbn [app] in Eb.
  peel Eb s01 H0. peel Eb s02 H1. peel Eb s03 H2. peel Eb s04 H3. peel Eb s05 H4.
  peel Eb s06 H5. peel Eb s07 H6.
  rewrite type_checking_cases, Er, Em in H5.
  destruct (raises w (trace s05) type_checking); [discriminate H5 |].
  apply call_Returned in H5, H6.
  assert (Hrest : exists n, trace s1 = trace s07 ++ n).
  { eapply step_grows; [| exact Eb].
    apply emits_sequence. unfold serve_if_enabled. repeat constructor; emits_auto. }
  destruct Hrest as [n En].
  split; [| split; [| exact Hrun]].
  - exists (trace s05), n.
    rewrite En. subst s07 s06. rewrite !final_trace_record.
    rewrite <- !app_assoc. reflexivity.
  - intros Hen.
    peel Eb s08 H7. peel Eb s09 H8. peel Eb s10 H9. peel Eb s11 H10.
    peel Eb s12 H11. peel Eb s13 H12. peel Eb s14 H13. peel Eb s15 H14.
    apply sequence_nil_Returned in Eb. subst s15.
    unfold serve_if_enabled in H14. rewrite Hen in H14.
    apply call_Returned in H14. subst s1. exists (trace s14). reflexivity.
Qed.

Lemma basic_type_errors_are_warnings_witness :
  let body := run_body demo_world initial_state in
  outcome_of body = Returned tt
  /\ (exists before after,
        final_trace body =
          before ++ Ok type_checking :: Ok (logger_warning "TypeError: 2 issues")
            :: Ok load_properties :: after)
  /\ (server_enabled demo_world = true ->
      exists before, final_trace body = before ++ [Ok uvicorn_run])
  /\ (forallb is_ok demo_trace = true ->
      outcome_of (run demo_world initial_state) = Returned tt).
Proof.
  apply (@basic_type_errors_are_warnings demo_world "TypeError: 2 issues"
           eq_refl eq_refl).
  vm_compute. reflexivity.
Defined.

(** ** Providers and local classes *)

Lemma sequence_app_Returned (a b : list (M unit)) s s' :
  sequence (a ++ b) s = (Returned tt, s') ->
  exists s1, sequence a s = (Returned tt, s1) /\ sequence b s1 = (Returned tt, s').
Proof.
  rewrite sequence_app. intros H. apply bind_Returned in H as ([] & s1 & Ha & Hb).
  eauto.
Qed.

(** A run seen from one of its statements: either the statements before it
    did not all return, and only the destroy pass follows; or they did, and
    the statement runs, followed by the later statements and the destroy
    pass. *)
Lemma run_focus (w : World) (q : entry -> Prop)
      (before after : list (M unit)) (it : M unit) :
  run_body_steps w = before ++ it :: after ->
  Forall (emits q) after ->
  emits q (_handle_singleton_components_life_cycle w Destruction) ->
  match sequence before initial_state with
  | (Raised _, s1) =>
      exists n, final_trace (run w initial_state) = trace s1 ++ n /\ Forall q n
  | (Returned _, s1) =>
      exists n, final_trace (run w initial_state) = final_trace (it s1) ++ n
                /\ Forall q n
  end.
Proof.
  intros Esteps Ha Hd. unfold run. rewrite try_finally_trace.
  rewrite run_body_as_steps, Esteps, sequence_app. unfold bind.
  destruct (sequence before initial_state) as [[[] | x] s1].
  - cbn [sequence]. unfold bind.
    destruct (it s1) as [[[] | x] s2]; cbn [final_trace snd].
    + destruct (emits_sequence Ha s2) as (n1 & E1 & F1).
      destruct (Hd (snd (sequence after s2))) as (n2 & E2 & F2).
      exists (n1 ++ n2). unfold final_trace in *.
      rewrite E2, E1, app_assoc. split; [reflexivity | apply Forall_app; auto].
    + destruct (Hd s2) as (n2 & E2 & F2). exists n2. auto.
  - cbn [snd]. destruct (Hd s1) as (n2 & E2 & F2). exists n2. auto.
Qed.

Lemma destroy_pass_emits_any w :
  emits (only any_call) (_handle_singleton_components_life_cycle w Destruction).
Proof. emits_auto. Qed.

Lemma in_class_lines w c category :
  issubclass w c category = true ->
  In (Ok (registration category c)) (class_lines w c).
Proof.
  intros H. apply (count_occ_In entry_eq_dec). rewrite count_class_lines, H.
  destruct (string_dec c c); [lia | congruence].
Qed.

Lemma in_provider_lines w p c category :
  In p (entity_providers w) ->
  In c (entities_of w p) ->
  issubclass w c category = true ->
  In (Ok (registration category c)) (provider_lines w).
Proof.
  intros Hp Hc Hsub. unfold provider_lines. apply in_flat_map.
  exists p. split; [exact Hp |]. right. apply in_flat_map.
  exists c. split; [exact Hc | apply in_class_lines, Hsub].
Qed.

Lemma provider_phase_Returned w s' :
  sequence (provider_phase w) initial_state = (Returned tt, s') ->
  scanned_classes s' = Some (classes_found w)
  /\ exists t0, trace s' = t0 ++ provider_lines w.
Proof.
  unfold provider_phase. intros H.
  peel H s0 H0. peel H s1 H1. peel H s2 H2.
  apply sequence_nil_Returned in H. subst s'.
  apply scan_Returned in H1 as [_ Sc]. apply providers_Returned in H2 as [E2 S2].
  split; [congruence |]. eauto.
Qed.

(** C5. The trace of a run starts with the trace of the provider phase
    (logging set-up, scan, registration of the providers' entities); the
    lines of the local registration come right after it.  If local
    registration makes any call at all, the provider phase has returned and
    the registration call of every entity of every configured provider,
    under every category the entity matches, has already returned. *)
Theorem provider_entities_registered_before_local_ones (w : World) :
  let before := final_trace (sequence (provider_phase w) initial_state) in
  let after :=
    final_trace (sequence (provider_phase w ++ [local_registration w])
                          initial_state) in
  exists local_lines rest,
    after = before ++ local_lines
    /\ final_trace (run w initial_state) = after ++ rest
    /\ (local_lines <> [] ->
        forall p c category,
          In p (entity_providers w) ->
          In c (entities_of w p) ->
          issubclass w c category = true ->
          In (Ok (registration category c)) before).
Proof.
  cbv zeta.
  pose proof (@run_focus w (only any_call) (provider_phase w)
                (skipn 4 (run_body_steps w)) (local_registration w) eq_refl) as Hf.
  rewrite sequence_app. unfold bind, final_trace in *.
  destruct (sequence (provider_phase w) initial_state) as [[[] | x] s1] eqn:Ep.
  - destruct Hf as (n & En & _).
    { unfold run_body_steps, init_app_steps, serve_if_enabled. cbn [app skipn].
      repeat constructor; emits_auto. }
    { apply destroy_pass_emits_any. }
    cbn [sequence]. unfold bind.
    assert (Hg : exists l, trace (snd (local_registration w s1)) = trace s1 ++ l).
    { destruct (local_registration w s1) as [o s2] eqn:El.
      eapply step_grows; [| exact El]. unfold local_registration. emits_auto. }
    destruct Hg as [l El].
    exists l, n. split; [| split].
    + destruct (local_registration w s1) as [[[] | y] s2]; exact El.
    + rewrite En. destruct (local_registration w s1) as [[[] | y] s2]; reflexivity.
    + intros _ p c category Hp Hc Hsub.
      apply provider_phase_Returned in Ep as (_ & t0 & Et).
      cbn [snd]. rewrite Et.
      apply in_or_app. right. eapply in_provider_lines; eauto.
  - destruct Hf as (n & En & _).
    { unfold run_body_steps, init_app_steps, serve_if_enabled. cbn [app skipn].
      repeat constructor; emits_auto. }
    { apply destroy_pass_emits_any. }
    exists [], n. cbn [snd]. rewrite app_nil_r.
    split; [reflexivity |]. split; [exact En |]. intros H. congruence.
Qed.

Lemma provider_entities_registered_before_local_ones_witness :
  In (Ok (registration Properties "PluginSettings"))
     (final_trace (sequence (provider_phase demo_world) initial_state)).
Proof.
  destruct (provider_entities_registered_before_local_ones demo_world)
    as (local_lines & rest & E & _ & H).
  apply (H (ltac:(intros ->; vm_compute in E; discriminate E))
           "plugin" "PluginSettings" Properties).
  - left. reflexivity.
  - right. left. reflexivity.
  - reflexivity.
Defined.

(** *** The watched calls of a run *)

Section Watched.

(** [p] is false on the calls under watch. *)
Variable p : event -> bool.

Lemma watched_app (t u : list entry) :
  watched p (t ++ u) = watched p t ++ watched p u.
Proof. apply filter_app. Qed.

Lemma watched_quiet (t : list entry) : Forall (only p) t -> watched p t = [].
Proof.
  induction 1 as [| line t Hl _ IH]; cbn; [reflexivity |].
  unfold only in Hl. rewrite Hl. exact IH.
Qed.

Lemma watched_calls {A} (f : A -> event) (l : list A) :
  (forall a, In a l -> p (f a) = false) ->
  watched p (map (fun a => Ok (f a)) l) = map (fun a => Ok (f a)) l.
Proof.
  induction l as [| a l IH]; intros Hl; cbn; [reflexivity |].
  rewrite (Hl a) by (left; reflexivity). cbn. f_equal.
  apply IH. intros b Hb. apply Hl. right. exact Hb.
Qed.

(** When the statements before [it] do not all return, the run makes none
    of the calls under watch. *)
Lemma run_watched_none (w : World) (before : list (M unit)) (it : M unit)
      (after : list (M unit)) x s1 :
  run_body_steps w = before ++ it :: after ->
  Forall (emits (only p)) before ->
  Forall (emits (only p)) after ->
  emits (only p) (_handle_singleton_components_life_cycle w Destruction) ->
  sequence before initial_state = (Raised x, s1) ->
  watched p (final_trace (run w initial_state)) = [].
Proof.
  intros Esteps Hb Ha Hd Es.
  pose proof (@run_focus w (only p) before after it Esteps Ha Hd) as Hf.
  destruct (emits_sequence Hb initial_state) as (nb & Eb & Fb).
  unfold final_trace in Eb. cbn [trace initial_state app] in Eb.
  rewrite Es in Hf, Eb. cbn [snd] in Eb. destruct Hf as (n & En & Fn).
  rewrite En, watched_app, Eb, (watched_quiet Fb), (watched_quiet Fn).
  reflexivity.
Qed.

(** When they do, and [it] is a loop of watched calls while no other
    statement makes any, the watched calls of the run are those of the loop:
    all of them, or all up to the first that raises, whose exception leaves
    the [try] block. *)
Lemma run_watched_loop (w : World) {A} (f : A -> event) (l : list A)
      (before : list (M unit)) (it : M unit) (after : list (M unit)) :
  run_body_steps w = before ++ it :: after ->
  Forall (emits (only p)) before ->
  Forall (emits (only p)) after ->
  emits (only p) (_handle_singleton_components_life_cycle w Destruction) ->
  (forall a, In a l -> p (f a) = false) ->
  (forall s, it s = for_each l (fun a => call w (f a)) s) ->
  outcome_of (sequence before initial_state) = Returned tt ->
  watched p (final_trace (run w initial_state)) = map (fun a => Ok (f a)) l
  \/ exists done c rest x,
       l = done ++ c :: rest
       /\ watched p (final_trace (run w initial_state))
            = map (fun a => Ok (f a)) done ++ [Failed (f c) x]
       /\ outcome_of (run_body w initial_state) = Raised x.
Proof.
  intros Esteps Hb Ha Hd Hl Hit Hret.
  pose proof (@run_focus w (only p) before after it Esteps Ha Hd) as Hf.
  destruct (emits_sequence Hb initial_state) as (nb & Eb & Fb).
  unfold final_trace in Eb. cbn [trace initial_state app] in Eb.
  assert (Hbody : run_body w initial_state =
                  bind (sequence before) (fun _ => sequence (it :: after))
                       initial_state).
  { rewrite run_body_as_steps, Esteps. apply sequence_app. }
  unfold outcome_of in Hret.
  destruct (sequence before initial_state) as [[[] | y] s1] eqn:Es;
    cbn [fst snd] in *; [| discriminate Hret].
  destruct Hf as (n & En & Fn).
  rewrite En, Hit, watched_app, (watched_quiet Fn), app_nil_r.
  unfold bind in Hbody. rewrite Es in Hbody. cbn [sequence] in Hbody.
  unfold bind in Hbody. rewrite Hit in Hbody.
  destruct (for_each_call_cases w f l s1)
    as [[Ho Ht] | (done & c & rest & x & El & Ho & Ht)].
  - left. rewrite Ht, watched_app, Eb, (watched_quiet Fb). cbn [app].
    apply watched_calls. exact Hl.
  - right. exists done, c, rest, x. split; [exact El |]. split.
    + rewrite Ht, !watched_app, Eb, (watched_quiet Fb). cbn [app].
      rewrite watched_calls
        by (intros a Hin; apply Hl; rewrite El; apply in_or_app; left; exact Hin).
      f_equal. cbn. rewrite Hl by (rewrite El; apply in_elt). reflexivity.
    + rewrite Hbody. unfold outcome_of in *.
      destruct (for_each l (fun a => call w (f a)) s1) as [[[] | z] s2];
        cbn [fst] in *; [discriminate Ho | exact Ho].
Qed.

End Watched.

(** *** Registration of the providers themselves *)

Lemma register_entity_providers_as_calls w l s :
  _register_entity_providers w l s =
  for_each (events (provider_registration_lines l)) (fun e => call w e) s.
Proof.
  unfold _register_entity_providers. revert s.
  induction l as [| p l IH]; intros s;
    cbn [for_each provider_registration_lines flat_map app events map event_of].
  - reflexivity.
  - rewrite bind_assoc. apply bind_ext; [reflexivity | intros _ s1].
    apply bind_ext; [reflexivity | intros _ s2]. apply IH.
Qed.

Lemma provider_registration_lines_events l :
  map (fun e => Ok e) (events (provider_registration_lines l))
    = provider_registration_lines l.
Proof.
  induction l as [| p l IH]; cbn; [reflexivity |]. do 2 f_equal. exact IH.
Qed.

Lemma provider_registration_events_watched l e :
  In e (events (provider_registration_lines l)) ->
  not_provider_registration e = false.
Proof.
  induction l as [| p l IH]; cbn; [intros [] |].
  intros [<- | [<- | H]]; [reflexivity | reflexivity | exact (IH H)].
Qed.

(** In the demo application the local class [UserService] is registered
    while the provider [plugin] is not yet registered with the context. *)
Lemma providers_not_registered_before_local_entities :
  ~ providers_registered_before_local_entities demo_world.
Proof.
  intros H.
  destruct (H (firstn 7 demo_trace) (Ok (register_component "UserService"))
              (skipn 8 demo_trace) "UserService" Component "plugin") as [Hin _].
  - vm_compute. reflexivity.
  - left. reflexivity.
  - reflexivity.
  - reflexivity.
  - left. reflexivity.
  - vm_compute in Hin.
    repeat (destruct Hin as [Hin | Hin]; [discriminate Hin |]). exact Hin.
Qed.

Lemma locally_classified_grows w t u :
  locally_classified w t -> locally_classified w (t ++ u).
Proof.
  intros (t0 & t1 & ->). exists t0, (t1 ++ u). rewrite <- !app_assoc. reflexivity.
Qed.

Lemma local_phase_Returned w s' :
  sequence (provider_phase w ++ [local_registration w]) initial_state
    = (Returned tt, s') ->
  locally_classified w (trace s').
Proof.
  intros H. apply sequence_app_Returned in H as (s1 & Hp & Hl).
  apply provider_phase_Returned in Hp as (Sc & t0 & Et).
  peel Hl s2 H2. apply sequence_nil_Returned in Hl. subst s'.
  rewrite (local_registration_scanned w s1 Sc) in H2.
  apply register_app_entities_Returned in H2 as [E2 _].
  exists t0, []. rewrite E2, Et, app_nil_r, <- app_assoc. reflexivity.
Qed.

(** C6 (amended). In every run, whenever a provider is registered with the
    context or handed the context, local classification is over: the trace
    before that call shows the complete provider phase followed by the
    registration of every locally discovered class.  And the providers do
    get registered: once local classification has returned, and provided
    [entity_providers] is a collection that can be walked again, the
    registration calls of the run are those of every configured provider in
    configuration order, each provider first registered and then handed the
    context -- all of them, or all up to the first call that raises, whose
    exception leaves the [try] block.  When [entity_providers] is a one-shot
    iterator, the provider phase has exhausted it and no provider is
    registered at all. *)
Theorem providers_registered_after_local_entities (w : World) :
  let t := final_trace (run w initial_state) in
  (forall pre line post p,
      t = pre ++ line :: post ->
      event_of line = register_entity_provider p \/ event_of line = set_context p ->
      locally_classified w pre)
  /\ (outcome_of (sequence (steps_before_provider_registration w) initial_state)
        = Returned tt ->
      entity_providers_reiterable w = true ->
      provider_registration_calls t
        = provider_registration_lines (entity_providers w)
      \/ exists done e rest x,
           provider_registration_lines (entity_providers w) = done ++ Ok e :: rest
           /\ provider_registration_calls t = done ++ [Failed e x]
           /\ outcome_of (run_body w initial_state) = Raised x)
  /\ (entity_providers_reiterable w = false ->
      provider_registration_calls t = []).
Proof.
  cbv zeta.
  assert (Hb : Forall (emits (only not_provider_registration))
                 (steps_before_provider_registration w)).
  { unfold steps_before_provider_registration, provider_phase, local_registration.
    cbn [app]. repeat constructor; emits_auto. }
  assert (Ha : Forall (emits (only not_provider_registration))
                 (skipn 5 (run_body_steps w))).
  { unfold run_body_steps, init_app_steps, serve_if_enabled. cbn [app skipn].
    repeat constructor; emits_auto. }
  assert (Hd : emits (only not_provider_registration)
                 (_handle_singleton_components_life_cycle w Destruction))
    by emits_auto.
  split; [| split].
  - intros pre line post p Et El.
    refine (@run_guarded not_provider_registration (locally_classified w)
              (@locally_classified_grows w) w
              (steps_before_provider_registration w)
              (skipn 5 (run_body_steps w))
              (_register_entity_providers w (entity_providers_again w))
              eq_refl eq_refl (fun _ => eq_refl) Hb _ Ha pre line post Et _).
    + apply local_phase_Returned.
    + destruct El as [-> | ->]; reflexivity.
  - intros Hret Hre.
    destruct (@run_watched_loop not_provider_registration w event (fun e => e)
                (events (provider_registration_lines (entity_providers_again w)))
                (steps_before_provider_registration w)
                (_register_entity_providers w (entity_providers_again w))
                (skipn 5 (run_body_steps w)) eq_refl Hb Ha Hd
                (@provider_registration_events_watched _)
                (register_entity_providers_as_calls w _) Hret)
      as [Hall | (done & e & rest & x & El & Hw & Ho)];
      unfold entity_providers_again in *; rewrite Hre in *.
    + left. unfold provider_registration_calls. rewrite Hall.
      apply provider_registration_lines_events.
    + right. exists (map Ok done), e, (map Ok rest), x.
      split; [| split; [exact Hw | exact Ho]].
      rewrite <- provider_registration_lines_events, El, map_app. reflexivity.
  - intros Hre. unfold provider_registration_calls.
    destruct (sequence (steps_before_provider_registration w) initial_state)
      as [[[] | x] s1] eqn:Es.
    + destruct (@run_watched_loop not_provider_registration w event (fun e => e)
                  (events (provider_registration_lines (entity_providers_again w)))
                  (steps_before_provider_registration w)
                  (_register_entity_providers w (entity_providers_again w))
                  (skipn 5 (run_body_steps w)) eq_refl Hb Ha Hd
                  (@provider_registration_events_watched _)
                  (register_entity_providers_as_calls w _)
                  ltac:(rewrite Es; reflexivity))
        as [Hall | (done & e & rest & y & El & _)];
        unfold entity_providers_again in *; rewrite Hre in *.
      * exact Hall.
      * destruct done; discriminate El.
    + exact (@run_watched_none not_provider_registration w
               (steps_before_provider_registration w)
               (_register_entity_providers w (entity_providers_again w))
               (skipn 5 (run_body_steps w)) x s1 eq_refl Hb Ha Hd Es).
Qed.

Lemma providers_registered_after_local_entities_witness :
  locally_classified plugins_world
    (firstn 9 (final_trace (run plugins_world initial_state)))
  /\ provider_registration_calls (final_trace (run plugins_world initial_state))
       = [ Ok (register_entity_provider "billing"); Ok (set_context "billing");
           Ok (register_entity_provider "audit"); Ok (set_context "audit") ]
  /\ provider_registration_calls
       (final_trace (run (as_one_shot plugins_world) initial_state)) = [].
Proof.
  destruct (providers_registered_after_local_entities plugins_world)
    as (Hwhen & Hall & _).
  destruct (providers_registered_after_local_entities (as_one_shot plugins_world))
    as (_ & _ & Hnone).
  split; [| split].
  - apply (Hwhen (firstn 9 (final_trace (run plugins_world initial_state)))
             (Ok (register_entity_provider "audit"))
             (skipn 10 (final_trace (run plugins_world initial_state))) "audit").
    + vm_compute. reflexivity.
    + left. reflexivity.
  - destruct (Hall ltac:(vm_compute; reflexivity) eq_refl)
      as [E | (done & e & rest & x & _ & _ & Ho)].
    + rewrite E. reflexivity.
    + vm_compute in Ho. discriminate Ho.
  - apply Hnone. reflexivity.
Defined.

(** *** Initialisation of the providers *)

Lemma container_validated_grows w t u :
  container_validated w t -> container_validated w (t ++ u).
Proof.
  intros (t0 & t1 & t2 & ->). exists t0, t1, (t2 ++ u).
  rewrite <- !app_assoc. reflexivity.
Qed.

Lemma flat_map_quiet {X} (f : entry -> list X) p t :
  (forall line, p (event_of line) = true -> f line = []) ->
  Forall (only p) t -> flat_map f t = [].
Proof.
  intros Hq. induction 1 as [| line t Hl _ IH]; cbn [flat_map]; [reflexivity |].
  rewrite (Hq line Hl), IH. reflexivity.
Qed.

Lemma provider_inits_quiet p t :
  (forall q, p (provider_init q) = false) ->
  Forall (only p) t -> provider_inits t = [].
Proof.
  intros Hp. apply flat_map_quiet. intros line Hl.
  destruct (event_of line); try reflexivity. rewrite Hp in Hl. discriminate Hl.
Qed.

Lemma providers_registered_quiet p t :
  (forall q, p (register_entity_provider q) = false) ->
  Forall (only p) t -> providers_registered t = [].
Proof.
  intros Hp. apply flat_map_quiet. intros [e | e x] Hl; [| reflexivity].
  destruct e; try reflexivity. cbn in Hl. rewrite Hp in Hl. discriminate Hl.
Qed.

Lemma provider_inits_app t u :
  provider_inits (t ++ u) = provider_inits t ++ provider_inits u.
Proof. apply flat_map_app. Qed.

Lemma providers_registered_app t u :
  providers_registered (t ++ u) = providers_registered t ++ providers_registered u.
Proof. apply flat_map_app. Qed.

Lemma providers_registered_hooks l :
  providers_registered (map (fun p => Ok (provider_init p)) l) = [].
Proof. induction l as [| p l IH]; cbn; [reflexivity | exact IH]. Qed.

Lemma providers_registered_lines l :
  providers_registered (provider_registration_lines l) = l.
Proof. induction l as [| p l IH]; cbn; [reflexivity | f_equal; exact IH]. Qed.

Lemma provider_inits_hooks l :
  provider_inits (map (fun p => Ok (provider_init p)) l) = l.
Proof. induction l as [| p l IH]; cbn; [reflexivity | f_equal; exact IH]. Qed.

Lemma register_entity_providers_Returned w l s s' :
  _register_entity_providers w l s = (Returned tt, s') ->
  extends s s' (provider_registration_lines l).
Proof.
  unfold _register_entity_providers, provider_registration_lines.
  revert s. induction l as [| p l IH]; intros s H; cbn [for_each flat_map] in *.
  - apply ret_Returned in H. subst s'. apply extends_refl.
  - apply bind_Returned in H as ([] & s2 & H2 & H).
    apply bind_Returned in H2 as ([] & s1 & H1 & H2).
    apply call_extends in H1, H2. apply IH in H.
    exact (extends_trans (extends_trans H1 H2) H).
Qed.

Section ProviderInit.

Variable w : World.

Lemma before_provider_init_Returned s' :
  sequence (steps_before_provider_init w) initial_state = (Returned tt, s') ->
  container_validated w (trace s')
  /\ providers_registered (trace s') = entity_providers_again w.
Proof.
  unfold steps_before_provider_init. intros H.
  apply sequence_app_Returned in H as (s4 & Hlocal & H).
  pose proof Hlocal as Hquiet.
  apply local_phase_Returned in Hlocal as (t0 & t1 & E4).
  assert (Q4 : providers_registered (trace s4) = []).
  { assert (He : emits (only no_provider_call)
                   (sequence (provider_phase w ++ [local_registration w]))).
    { apply emits_sequence. unfold provider_phase, local_registration. cbn [app].
      repeat constructor; emits_auto. }
    destruct (He initial_state) as (n & En & Fn). unfold final_trace in En.
    rewrite Hquiet in En. cbn [snd trace initial_state app] in En. rewrite En.
    eapply providers_registered_quiet; [| exact Fn]. reflexivity. }
  peel H s5 H5. apply register_entity_providers_Returned in H5 as [E5 _].
  unfold gate_and_container in H.
  peel H s6 H6. peel H s7 H7. peel H s8 H8. peel H s9 H9. peel H s10 H10.
  peel H s11 H11. apply sequence_nil_Returned in H. subst s'.
  assert (G6 : exists n, trace s6 = trace s5 ++ n /\ Forall (only no_provider_call) n).
  { assert (He : emits (only no_provider_call) (_type_checking w)) by emits_auto.
    destruct (He s5) as (n & En & Fn). unfold final_trace in En. rewrite H6 in En.
    eauto. }
  destruct G6 as (n6 & E6 & F6).
  apply call_Returned in H7, H8, H9, H10, H11. subst s11 s10 s9 s8 s7.
  rewrite !final_trace_record, E6, E5.
  split.
  - exists (t0 ++ provider_lines w),
           (t1 ++ provider_registration_lines (entity_providers_again w) ++ n6), [].
    rewrite E4, <- !app_assoc. reflexivity.
  - rewrite !providers_registered_app, Q4, providers_registered_lines.
    rewrite (providers_registered_quiet (p := no_provider_call) (t := n6)) by auto.
    cbn. rewrite !app_nil_r. reflexivity.
Qed.

End ProviderInit.

(** What the run shows of the providers once validation has returned: the
    providers registered are those a further walk of [entity_providers]
    yields, and the hooks called are theirs, in the same order, up to the
    first hook that raises. *)
Lemma provider_hooks_after_validation (w : World) :
  outcome_of (sequence (steps_before_provider_init w) initial_state)
    = Returned tt ->
  let t := final_trace (run w initial_state) in
  providers_registered t = entity_providers_again w
  /\ (provider_init_calls t
        = map (fun p => Ok (provider_init p)) (providers_registered t)
      \/ exists done p rest x,
           providers_registered t = done ++ p :: rest
           /\ provider_init_calls t
                = map (fun p => Ok (provider_init p)) done
                    ++ [Failed (provider_init p) x]
           /\ outcome_of (run_body w initial_state) = Raised x).
Proof.
  intros Hret. cbv zeta.
  assert (Hreg : providers_registered (final_trace (run w initial_state))
                 = entity_providers_again w).
  { pose proof (@run_focus w (only no_provider_call)
                  (steps_before_provider_init w)
                  (skipn 12 (run_body_steps w))
                  (_init_providers w (entity_providers_again w)) eq_refl) as Hf.
    unfold outcome_of in Hret.
    destruct (sequence (steps_before_provider_init w) initial_state)
      as [[[] | x] s1] eqn:Es; cbn [fst] in Hret; [| discriminate Hret].
    destruct Hf as (n & En & Fn).
    { unfold run_body_steps, init_app_steps, serve_if_enabled. cbn [app skipn].
      repeat constructor; emits_auto. }
    { emits_auto. }
    apply before_provider_init_Returned in Es as [_ Hs1].
    assert (Hn : providers_registered n = []).
    { eapply providers_registered_quiet; [| exact Fn]. reflexivity. }
    rewrite En, providers_registered_app, Hn, app_nil_r. unfold _init_providers.
    destruct (for_each_call_cases w provider_init (entity_providers_again w) s1)
      as [[_ Ht] | (done & c & rest & x & _ & _ & Ht)]; rewrite Ht.
    - rewrite providers_registered_app, Hs1, providers_registered_hooks.
      apply app_nil_r.
    - rewrite !providers_registered_app, Hs1, providers_registered_hooks.
      cbn. apply app_nil_r. }
  split; [exact Hreg |]. rewrite Hreg. unfold provider_init_calls.
  apply (@run_watched_loop not_provider_init w provider provider_init
           (entity_providers_again w)
           (steps_before_provider_init w)
           (_init_providers w (entity_providers_again w))
           (skipn 12 (run_body_steps w)) eq_refl).
  - unfold steps_before_provider_init, gate_and_container, provider_phase,
      local_registration. cbn [app].
    repeat constructor; emits_auto.
  - unfold run_body_steps, init_app_steps, serve_if_enabled. cbn [app skipn].
    repeat constructor; emits_auto.
  - emits_auto.
  - reflexivity.
  - reflexivity.
  - exact Hret.
Qed.

(** C7. In every run, whenever the initialisation hook of a provider is
    called, the trace before that call shows the registration of every
    locally discovered class and then, each having returned, the calls that
    initialise the container, inject the dependencies and validate the
    providers.  The hooks are called in the order in which the providers
    were registered with the context; once validation has returned, the
    hooks called are those of every registered provider, or of the
    registered providers up to the first whose hook raises, and that
    exception leaves the [try] block.  So when the block returns, the hook
    of every registered provider has been called and has returned; these
    are all the configured providers when [entity_providers] is a collection
    that can be walked again. *)
Theorem provider_hooks_run_after_validation_in_order (w : World) :
  let t := final_trace (run w initial_state) in
  (forall pre line post p,
      t = pre ++ line :: post ->
      event_of line = provider_init p ->
      container_validated w pre)
  /\ (exists k, provider_inits t = firstn k (providers_registered t))
  /\ (outcome_of (sequence (steps_before_provider_init w) initial_state)
        = Returned tt ->
      providers_registered t = entity_providers_again w
      /\ (provider_init_calls t
            = map (fun p => Ok (provider_init p)) (providers_registered t)
          \/ exists done p rest x,
               providers_registered t = done ++ p :: rest
               /\ provider_init_calls t
                    = map (fun p => Ok (provider_init p)) done
                        ++ [Failed (provider_init p) x]
               /\ outcome_of (run_body w initial_state) = Raised x))
  /\ (outcome_of (run_body w initial_state) = Returned tt ->
      provider_init_calls t
        = map (fun p => Ok (provider_init p)) (providers_registered t)
      /\ (entity_providers_reiterable w = true ->
          providers_registered t = entity_providers w)).
Proof.
  cbv zeta. split; [| split; [| split]].
  - intros pre line post p Et El.
    refine (@run_guarded not_provider_init (container_validated w)
              (@container_validated_grows w) w
              (steps_before_provider_init w)
              (skipn 12 (run_body_steps w))
              (_init_providers w (entity_providers_again w))
              eq_refl eq_refl (fun _ => eq_refl) _ _ _ pre line post Et _).
    + unfold steps_before_provider_init, gate_and_container, provider_phase,
        local_registration. cbn [app].
      repeat constructor; emits_auto.
    + intros s' H. apply before_provider_init_Returned in H. tauto.
    + unfold run_body_steps, init_app_steps, serve_if_enabled. cbn [app skipn].
      repeat constructor; emits_auto.
    + rewrite El. reflexivity.
  - pose proof (@run_focus w (only no_provider_call)
                  (steps_before_provider_init w)
                  (skipn 12 (run_body_steps w))
                  (_init_providers w (entity_providers_again w)) eq_refl) as Hf.
    assert (Hall : emits (only not_provider_init)
                     (sequence (steps_before_provider_init w))).
    { apply emits_sequence.
      unfold steps_before_provider_init, gate_and_container, provider_phase,
        local_registration. cbn [app].
      repeat constructor; emits_auto. }
    destruct (Hall initial_state) as (nb & Eb & Fb). unfold final_trace in Eb.
    cbn [trace initial_state app] in Eb.
    destruct (sequence (steps_before_provider_init w) initial_state)
      as [[[] | x] s1] eqn:Es; cbn [snd] in Eb.
    + destruct Hf as (n & En & Fn).
      { unfold run_body_steps, init_app_steps, serve_if_enabled. cbn [app skipn].
        repeat constructor; emits_auto. }
      { emits_auto. }
      apply before_provider_init_Returned in Es as [_ Hreg].
      assert (Hinit0 : provider_inits (trace s1) = []).
      { rewrite Eb. eapply provider_inits_quiet; [| exact Fb]. reflexivity. }
      assert (Hn1 : provider_inits n = []).
      { eapply provider_inits_quiet; [| exact Fn]. reflexivity. }
      assert (Hn2 : providers_registered n = []).
      { eapply providers_registered_quiet; [| exact Fn]. reflexivity. }
      rewrite En. unfold _init_providers.
      destruct (for_each_call_cases w provider_init (entity_providers_again w) s1)
        as [[_ Ht] | (done & c & rest & x & El & _ & Ht)]; rewrite Ht.
      * exists (List.length (entity_providers_again w)).
        rewrite !provider_inits_app, !providers_registered_app.
        rewrite Hinit0, Hn1, Hreg, Hn2, provider_inits_hooks,
          providers_registered_hooks.
        cbn [app]. rewrite !app_nil_r, firstn_all. reflexivity.
      * exists (S (List.length done)).
        rewrite !provider_inits_app, !providers_registered_app.
        rewrite Hinit0, Hn1, Hreg, Hn2, provider_inits_hooks,
          providers_registered_hooks.
        cbn [provider_inits providers_registered flat_map app event_of].
        rewrite !app_nil_r, El, firstn_through. reflexivity.
    + destruct Hf as (n & En & Fn).
      { unfold run_body_steps, init_app_steps, serve_if_enabled. cbn [app skipn].
        repeat constructor; emits_auto. }
      { emits_auto. }
      exists 0. rewrite En, provider_inits_app, Eb.
      rewrite (provider_inits_quiet (p := not_provider_init) (t := nb)) by auto.
      rewrite (provider_inits_quiet (p := no_provider_call) (t := n)) by auto.
      reflexivity.
  - apply provider_hooks_after_validation.
  - intros Hret.
    assert (Hbefore : outcome_of (sequence (steps_before_provider_init w)
                                    initial_state) = Returned tt).
    { unfold outcome_of in *. rewrite run_body_as_steps in Hret.
      change (run_body_steps w)
        with (steps_before_provider_init w
                ++ _init_providers w (entity_providers_again w)
                :: skipn 12 (run_body_steps w)) in Hret.
      rewrite sequence_app in Hret. unfold bind in Hret.
      destruct (sequence (steps_before_provider_init w) initial_state)
        as [[[] | x] s1]; [reflexivity | discriminate Hret]. }
    destruct (provider_hooks_after_validation w Hbefore)
      as (Hreg & [Hall | (done & p & rest & x & _ & _ & Ho)]).
    + split; [exact Hall |]. intros Hre. rewrite Hreg.
      unfold entity_providers_again. rewrite Hre. reflexivity.
    + rewrite Ho in Hret. discriminate Hret.
Qed.

Lemma provider_hooks_run_after_validation_in_order_witness :
  container_validated plugins_world
    (firstn 18 (final_trace (run plugins_world initial_state)))
  /\ provider_init_calls (final_trace (run plugins_world initial_state))
       = [ Ok (provider_init "billing"); Ok (provider_init "audit") ]
  /\ providers_registered (final_trace (run plugins_world initial_state))
       = ["billing"; "audit"].
Proof.
  destruct (provider_hooks_run_after_validation_in_order plugins_world)
    as (Hwhen & _ & Hafter & Hreturned).
  split; [| split].
  - apply (Hwhen (firstn 18 (final_trace (run plugins_world initial_state)))
             (Ok (provider_init "audit"))
             (skipn 19 (final_trace (run plugins_world initial_state))) "audit").
    + vm_compute. reflexivity.
    + reflexivity.
  - destruct (Hafter ltac:(vm_compute; reflexivity))
      as (Hreg & [E | (done & p & rest & x & _ & _ & Ho)]).
    + rewrite E, Hreg. reflexivity.
    + vm_compute in Ho. discriminate Ho.
  - destruct (Hreturned ltac:(vm_compute; reflexivity)) as (_ & Hall).
    apply Hall. reflexivity.
Defined.

(** The destroy pass of a run that serves and of a run that aborts. *)
Lemma destroy_phase_runs_exactly_once_witness :
  (exists teardown,
      demo_trace = final_trace (run_body demo_world initial_state) ++ teardown
      /\ destroyed teardown = ["plugin_service"; "user_service"])
  /\ (exists teardown,
        final_trace (run strict_world initial_state) =
          final_trace (run_body strict_world initial_state) ++ teardown
        /\ destroyed teardown = []).
Proof.
  split.
  - destruct (destroy_phase_runs_exactly_once demo_world)
      as (teardown & E & _ & _ & _ & H).
    exists teardown. split; [exact E |].
    assert (Et : teardown = [ Ok get_singleton_component_instances;
                              Ok (finish_destruction_cycle "plugin_service");
                              Ok (finish_destruction_cycle "user_service") ]).
    { apply (app_inv_head (final_trace (run_body demo_world initial_state))).
      rewrite <- E. vm_compute. reflexivity. }
    rewrite (H ltac:(rewrite Et; reflexivity)). vm_compute. reflexivity.
  - destruct (destroy_phase_runs_exactly_once strict_world)
      as (teardown & E & _ & _ & _ & H).
    exists teardown. split; [exact E |].
    assert (Et : teardown = [Ok get_singleton_component_instances]).
    { apply (app_inv_head (final_trace (run_body strict_world initial_state))).
      rewrite <- E. vm_compute. reflexivity. }
    rewrite (H ltac:(rewrite Et; reflexivity)). vm_compute. reflexivity.
Defined.

(** * Further properties of the orchestrator *)

(** ** Schedules of calls *)

Lemma map_Ok_events (lines : list entry) :
  forallb is_ok lines = true -> map Ok (events lines) = lines.
Proof.
  induction lines as [| [e | e x] lines IH]; cbn; intros H;
    [reflexivity | f_equal; auto | discriminate H].
Qed.

Lemma calls_follows w schedule s :
  follows (map Ok schedule) s (calls w schedule s).
Proof.
  unfold calls.
  destruct (for_each_call_cases w (fun e : event => e) schedule s)
    as [[Ho Ht] | (done & e & rest & x & El & Ho & Ht)].
  - left. split; [exact Ho | exact Ht].
  - right. exists (map Ok done), e, (map Ok rest), x.
    split; [rewrite El, map_app; reflexivity |]. split; [exact Ho | exact Ht].
Qed.

Lemma calls_app w a b s :
  calls w (a ++ b) s = bind (calls w a) (fun _ => calls w b) s.
Proof.
  unfold calls. revert s. induction a as [| e a IH]; intros s; cbn [app for_each].
  - reflexivity.
  - rewrite bind_assoc. apply bind_ext; [reflexivity | intros _ s1; apply IH].
Qed.

Lemma bind_ret_tt (m : M unit) s : bind m (fun _ => ret tt) s = m s.
Proof. unfold bind, ret. destruct (m s) as [[[] | x] s1]; reflexivity. Qed.

Lemma calls_one w e s : calls w [e] s = call w e s.
Proof. unfold calls. cbn [for_each]. apply bind_ret_tt. Qed.

Lemma calls_cons w e schedule s :
  calls w (e :: schedule) s = bind (call w e) (fun _ => calls w schedule) s.
Proof. reflexivity. Qed.

(** A call whose result does not depend on the trace, followed by the rest
    of the program. *)
Lemma call_for_const w {A B} e (v : A) (k : A -> M B) s :
  bind (call_for w e (fun _ => v)) k s = bind (call w e) (fun _ => k v) s.
Proof.
  unfold bind, call, call_for. destruct (raises w (trace s) e); reflexivity.
Qed.

Lemma for_each_calls w {A} (f : A -> list event) (l : list A) s :
  for_each l (fun x => calls w (f x)) s = calls w (flat_map f l) s.
Proof.
  revert s. induction l as [| a l IH]; intros s; cbn [for_each flat_map].
  - reflexivity.
  - rewrite calls_app. apply bind_ext; [reflexivity | intros _ s1; apply IH].
Qed.

Lemma handler_as_calls w category c s :
  match category with
  | Component => _handle_register_component w
  | RestController => _handle_register_rest_controller w
  | BeanCollection => _handle_register_bean_collection w
  | Properties => _handle_register_properties w
  end c s = calls w (events (handler_lines w category c)) s.
Proof.
  destruct category; cbn [handler_lines events map event_of].
  - symmetry. apply calls_one.
  - unfold _handle_register_rest_controller. rewrite !calls_cons.
    do 3 (apply bind_ext; [reflexivity | intros _ ?]).
    rewrite call_for_const. do 2 (apply bind_ext; [reflexivity | intros _ ?]).
    symmetry. apply bind_ret_tt.
  - unfold _handle_register_bean_collection. rewrite !calls_cons.
    apply bind_ext; [reflexivity | intros _ ?]. symmetry. apply bind_ret_tt.
  - unfold _handle_register_properties. rewrite !calls_cons.
    apply bind_ext; [reflexivity | intros _ ?]. symmetry. apply bind_ret_tt.
Qed.

Lemma register_class_as_calls w c s :
  register_class w c s = calls w (events (class_lines w c)) s.
Proof.
  unfold register_class, classes_with_handlers, class_lines, categories.
  cbn [for_each flat_map]. rewrite app_nil_r, !events_app.
  assert (step : forall category s0,
             (if negb (issubclass w c category) then ret tt
              else match category with
                   | Component => _handle_register_component w
                   | RestController => _handle_register_rest_controller w
                   | BeanCollection => _handle_register_bean_collection w
                   | Properties => _handle_register_properties w
                   end c) s0 =
             calls w (events (if issubclass w c category
                              then handler_lines w category c else [])) s0).
  { intros category s0. destruct (issubclass w c category); cbn [negb].
    - apply handler_as_calls.
    - reflexivity. }
  rewrite calls_app. apply bind_ext; [apply (step Component) | intros _ ?].
  rewrite calls_app. apply bind_ext; [apply (step RestController) | intros _ ?].
  rewrite calls_app. apply bind_ext; [apply (step BeanCollection) | intros _ ?].
  rewrite bind_ret_tt. apply (step Properties).
Qed.

Lemma register_app_entities_as_calls w classes s :
  _register_app_entities w classes s =
  calls w (events (flat_map (class_lines w) classes)) s.
Proof.
  unfold _register_app_entities. fold (register_class w).
  revert s. induction classes as [| c classes IH]; intros s;
    cbn [for_each flat_map].
  - reflexivity.
  - rewrite events_app, calls_app.
    apply bind_ext; [apply register_class_as_calls | intros _ s1; apply IH].
Qed.

Lemma class_lines_ok w c : forallb is_ok (class_lines w c) = true.
Proof.
  unfold class_lines, categories. cbn [flat_map]. rewrite !forallb_app.
  destruct (issubclass w c Component), (issubclass w c RestController),
    (issubclass w c BeanCollection), (issubclass w c Properties); reflexivity.
Qed.

Lemma classes_lines_ok w classes :
  forallb is_ok (flat_map (class_lines w) classes) = true.
Proof.
  induction classes as [| c classes IH]; cbn [flat_map]; [reflexivity |].
  rewrite forallb_app, class_lines_ok, IH. reflexivity.
Qed.

(** C-independent: the three schedules of the bootstrap. *)

(** X1. [_register_app_entities] follows one schedule: the candidate
    classes in the order given, for each class the handlers of the
    categories it matches in the order of [classes_with_handlers], for each
    handler its calls in program order.  Either all of it is done, or it is
    done up to the first call that raises, and that exception leaves the
    method. *)
Theorem registration_follows_the_schedule (w : World) classes s :
  follows (flat_map (class_lines w) classes) s (_register_app_entities w classes s).
Proof.
  rewrite register_app_entities_as_calls.
  rewrite <- (map_Ok_events (flat_map (class_lines w) classes)) at 1
    by apply classes_lines_ok.
  apply calls_follows.
Qed.

Lemma provider_lines_ok w : forallb is_ok (provider_lines w) = true.
Proof.
  unfold provider_lines. induction (entity_providers w) as [| p l IH];
    cbn [flat_map]; [reflexivity |].
  cbn [app forallb is_ok]. rewrite forallb_app, classes_lines_ok, IH. reflexivity.
Qed.

Lemma providers_as_calls w s :
  _register_all_entities_from_providers w s = calls w (events (provider_lines w)) s.
Proof.
  unfold _register_all_entities_from_providers, provider_lines.
  revert s. induction (entity_providers w) as [| p l IH]; intros s;
    cbn [for_each flat_map].
  - reflexivity.
  - rewrite events_app. cbn [events map event_of app]. rewrite calls_cons.
    rewrite bind_assoc, call_for_const.
    apply bind_ext; [reflexivity | intros _ s1].
    fold (events (flat_map (class_lines w) (entities_of w p))).
    fold (events (flat_map
                    (fun p0 => Ok (get_entities p0)
                                 :: flat_map (class_lines w) (entities_of w p0)) l)).
    rewrite calls_app.
    apply bind_ext; [apply register_app_entities_as_calls | intros _ s2; apply IH].
Qed.

(** X2. The provider phase follows one schedule: for every configured
    provider in order, the [get_entities] call and then the registration
    schedule of the entities it returned; it stops at the first call that
    raises, so that the entities of later providers are not even asked for. *)
Theorem provider_phase_follows_the_schedule (w : World) s :
  follows (provider_lines w) s (_register_all_entities_from_providers w s).
Proof.
  rewrite providers_as_calls.
  rewrite <- (map_Ok_events (provider_lines w)) at 1 by apply provider_lines_ok.
  apply calls_follows.
Qed.

Lemma controllers_lines_ok w l :
  forallb is_ok (flat_map (controller_lines w) l) = true.
Proof. induction l as [| k l IH]; cbn; [reflexivity | exact IH]. Qed.

Lemma bind_controllers_as_calls w l s :
  for_each l (fun controller =>
    call w (register_routes controller) ;;
    router <- call_for w (get_router controller) (fun _ => router_of w controller) ;;
    call w (include_router router) ;;
    call w (register_middlewares controller)) s =
  calls w (events (flat_map (controller_lines w) l)) s.
Proof.
  revert s. induction l as [| k l IH]; intros s; cbn [for_each flat_map].
  - reflexivity.
  - rewrite events_app, calls_app. apply bind_ext; [| intros _ s1; apply IH].
    cbn [controller_lines events map event_of]. rewrite !calls_cons.
    apply bind_ext; [reflexivity | intros _ ?].
    rewrite call_for_const. do 2 (apply bind_ext; [reflexivity | intros _ ?]).
    symmetry. apply bind_ret_tt.
Qed.

Lemma controllers_follow_the_schedule_lemma (w : World) s :
  follows (Ok get_controller_instances
             :: flat_map (controller_lines w) (controller_instances w (trace s)))
          s (__init_controllers w s).
Proof.
  unfold __init_controllers.
  destruct (call_for_cases w get_controller_instances (controller_instances w) s)
    as [E | [x E]].
  - erewrite bind_of_Returned by exact E. rewrite bind_controllers_as_calls.
    pose proof (calls_follows w
                  (events (flat_map (controller_lines w)
                             (controller_instances w (trace s))))
                  (record_entry s (Ok get_controller_instances))) as H.
    rewrite map_Ok_events in H by apply controllers_lines_ok.
    destruct H as [[Ho Ht] | (done & e & rest & x & El & Ho & Ht)].
    + left. split; [exact Ho |]. rewrite Ht, final_trace_record, <- app_assoc.
      reflexivity.
    + right. exists (Ok get_controller_instances :: done), e, rest, x.
      split; [rewrite El; reflexivity |]. split; [exact Ho |].
      rewrite Ht, final_trace_record, <- app_assoc. reflexivity.
  - erewrite bind_of_Raised by exact E. right.
    exists [], get_controller_instances,
      (flat_map (controller_lines w) (controller_instances w (trace s))), x.
    split; [reflexivity |]. split; reflexivity.
Qed.

(** X3. [__init_controllers] follows one schedule: the request for the
    controller instances, then for every controller reported, in order, its
    [register_routes], its [get_router], [include_router] on the router it
    returned, and its [register_middlewares].  It stops at the first call
    that raises: later controllers are left unbound. *)
Theorem controllers_follow_the_schedule (w : World) s :
  follows (Ok get_controller_instances
             :: flat_map (controller_lines w) (controller_instances w (trace s)))
          s (__init_controllers w s).
Proof. apply controllers_follow_the_schedule_lemma. Qed.

(** ** Failed calls and where exceptions come from *)

Section Orderly.

Variable Q : exn -> list entry -> Prop.

Lemma orderly_ret {A} (a : A) : orderly Q (ret a).
Proof. intros s. exists []. cbn. rewrite app_nil_r. auto. Qed.

Lemma orderly_set_scanned_classes l : orderly Q (set_scanned_classes l).
Proof. intros s. exists []. cbn. rewrite app_nil_r. auto. Qed.

Lemma orderly_call_for w {A} e (f : list entry -> A) : orderly Q (call_for w e f).
Proof.
  intros s. unfold call_for, final_trace, outcome_of.
  destruct (raises w (trace s) e) as [x |]; cbn.
  - exists [Failed e x]. split; [reflexivity |]. left. exists [], e. auto.
  - exists [Ok e]. auto.
Qed.

Lemma orderly_call w e : orderly Q (call w e).
Proof. apply orderly_call_for. Qed.

Lemma orderly_bind {A B} (m : M A) (k : A -> M B) :
  orderly Q m -> (forall a, orderly Q (k a)) -> orderly Q (bind m k).
Proof.
  intros Hm Hk s. destruct (Hm s) as (n1 & E1 & O1).
  unfold bind, final_trace, outcome_of in *.
  destruct (m s) as [[a | x] s1]; cbn [fst snd] in *.
  - destruct (Hk a s1) as (n2 & E2 & O2). unfold final_trace, outcome_of in *.
    exists (n1 ++ n2). rewrite E2, E1, app_assoc. split; [reflexivity |].
    destruct (k a s1) as [[b | y] s2]; cbn [fst snd] in *.
    + rewrite forallb_app, O1, O2. reflexivity.
    + destruct O2 as [(pre & e & -> & Hpre) | [Hok HQ]].
      * left. exists (n1 ++ pre), e. rewrite app_assoc, forallb_app, O1, Hpre. auto.
      * right. rewrite forallb_app, O1, Hok. split; [reflexivity |].
        rewrite <- E1. exact HQ.
  - exists n1. auto.
Qed.

Lemma orderly_for_each {A} (l : list A) (body : A -> M unit) :
  (forall a, orderly Q (body a)) -> orderly Q (for_each l body).
Proof.
  intros Hb. induction l; cbn [for_each];
    [apply orderly_ret | apply orderly_bind; auto].
Qed.

Lemma orderly_ext {A} (m m' : M A) :
  (forall s, m s = m' s) -> orderly Q m' -> orderly Q m.
Proof. intros E H s. rewrite E. apply H. Qed.

End Orderly.

Ltac orderly_step :=
  lazymatch goal with
  | |- orderly _ (ret _) => apply orderly_ret
  | |- orderly _ (set_scanned_classes _) => apply orderly_set_scanned_classes
  | |- orderly _ (call _ _) => apply orderly_call
  | |- orderly _ (call_for _ _ _) => apply orderly_call_for
  | |- orderly _ (bind _ _) => apply orderly_bind; [| intros ?]
  | |- orderly _ (for_each (classes_with_handlers _) _) =>
      unfold classes_with_handlers; cbn [for_each]
  | |- orderly _ (for_each _ _) => apply orderly_for_each; intros ?
  | |- orderly _ (if ?b then _ else _) => destruct b
  | |- orderly _ (match ?x with _ => _ end) => destruct x
  | |- orderly _ _ =>
      progress unfold __run_server, __init_controllers, serve_if_enabled,
        _handle_singleton_components_life_cycle, _init_providers,
        _register_entity_providers, _register_all_entities_from_providers,
        _register_app_entities, _handle_register_properties,
        _handle_register_bean_collection, _handle_register_rest_controller,
        _handle_register_component, _scan_classes_for_project,
        __configure_logging
  end.

Ltac orderly_auto := repeat orderly_step.

Lemma type_checking_orderly w : orderly (strict_abort w) (_type_checking w).
Proof.
  intros s. rewrite type_checking_cases. unfold final_trace, outcome_of.
  destruct (raises w (trace s) type_checking) as [y |]; cbn [fst snd].
  - exists [Failed type_checking y]. split; [reflexivity |].
    left. exists [], type_checking. auto.
  - destruct (type_checking_report w) as [error |] eqn:Er.
    + destruct (type_checking_mode w) eqn:Em.
      * exists [Ok type_checking]. cbn [fst snd]. split; [reflexivity |].
        right. split; [reflexivity |].
        split; [exact Em | split; [exact Er |]]. exists (trace s). reflexivity.
      * destruct (orderly_call (strict_abort w) w (logger_warning error)
                    (record_entry s (Ok type_checking))) as (n & En & On).
        unfold final_trace, outcome_of in *.
        exists (Ok type_checking :: n). rewrite En, final_trace_record, <- app_assoc.
        split; [reflexivity |].
        destruct (call w (logger_warning error) (record_entry s (Ok type_checking)))
          as [[[] | z] s2]; cbn [fst snd] in *.
        -- exact On.
        -- destruct On as [(pre & e & -> & Hpre) | [_ (Em' & _)]].
           ++ left. exists (Ok type_checking :: pre), e. auto.
           ++ exfalso. congruence.
      * exists [Ok type_checking]. cbn. auto.
    + exists [Ok type_checking]. cbn. auto.
Qed.

(** From scanning to the end of local registration the attribute
    [scanned_classes] is always set when it is read. *)
Lemma orderly_front w Q (rest : M unit) :
  orderly Q rest ->
  orderly Q (_scan_classes_for_project w ;;
             _register_all_entities_from_providers w ;;
             local_registration w ;;
             rest).
Proof.
  intros Hrest.
  assert (Hsame : forall s,
             (_scan_classes_for_project w ;;
              _register_all_entities_from_providers w ;;
              local_registration w ;; rest) s =
             (_scan_classes_for_project w ;;
              _register_all_entities_from_providers w ;;
              _register_app_entities w (classes_found w) ;; rest) s).
  { intros s. unfold bind.
    destruct (_scan_classes_for_project w s) as [[[] | y] s1] eqn:E1; [| reflexivity].
    apply scan_Returned in E1 as [_ Sc].
    destruct (_register_all_entities_from_providers w s1) as [[[] | y] s2] eqn:E2;
      [| reflexivity].
    apply providers_Returned in E2 as [_ Sp].
    rewrite (@local_registration_scanned w s2 (classes_found w)) by congruence.
    reflexivity. }
  eapply orderly_ext; [exact Hsame |].
  apply orderly_bind; [orderly_auto | intros _].
  apply orderly_bind; [orderly_auto | intros _].
  apply orderly_bind; [orderly_auto | intros _]. exact Hrest.
Qed.

Lemma run_body_orderly w : orderly (strict_abort w) (run_body w).
Proof.
  apply orderly_ext with (m' := sequence (run_body_steps w));
    [apply run_body_as_steps |].
  unfold run_body_steps, init_app_steps. cbn [app sequence].
  apply orderly_bind; [orderly_auto | intros _].
  apply orderly_front.
  apply orderly_bind; [orderly_auto | intros _].
  apply orderly_bind; [apply type_checking_orderly | intros _].
  orderly_auto.
Qed.

Lemma not_ok_in_all_ok (oks pre post : list entry) line :
  forallb is_ok oks = true -> is_ok line = false -> oks <> pre ++ line :: post.
Proof.
  intros Hok Hl ->. rewrite forallb_app in Hok. apply andb_prop in Hok as [_ Hok].
  cbn in Hok. rewrite Hl in Hok. discriminate Hok.
Qed.

Lemma all_ok_map_Ok {A} (f : A -> event) (l : list A) :
  forallb is_ok (map (fun x => Ok (f x)) l) = true.
Proof. induction l; cbn; auto. Qed.

Lemma destroy_pass_shape w s :
  exists lines,
    final_trace (_handle_singleton_components_life_cycle w Destruction s)
      = trace s ++ lines
    /\ destroy_pass_from w (trace s) lines
    /\ match outcome_of (_handle_singleton_components_life_cycle w Destruction s)
       with
       | Returned _ => forallb is_ok lines = true
       | Raised x => exists pre e, lines = pre ++ [Failed e x]
                                   /\ forallb is_ok pre = true
       end.
Proof.
  destruct (life_cycle_cases w Destruction s)
    as [(x & Ho & Ht) | [(Ho & Ht) | (done & i & rest & x & El & Ho & Ht)]];
    rewrite Ho, Ht; eexists; (split; [reflexivity |]).
  - split; [left; eauto |]. exists [], get_singleton_component_instances. auto.
  - split; [right; left; reflexivity |].
    cbn [forallb is_ok andb]. apply all_ok_map_Ok.
  - split; [right; right; exists done, i, rest, x; auto |].
    exists (Ok get_singleton_component_instances
              :: map (fun j => Ok (hook Destruction j)) done),
      (finish_destruction_cycle i).
    split; [reflexivity |]. cbn [forallb is_ok andb]. apply all_ok_map_Ok.
Qed.

Lemma all_ok_Forall (l : list entry) :
  forallb is_ok l = true -> Forall (fun t => is_ok t = true) l.
Proof. intros H. apply Forall_forall. apply forallb_forall. exact H. Qed.

(** In the [try] block a line that did not return is the last line, and its
    exception is the one that leaves the block. *)
Lemma try_block_failed_line_is_last w pre line post :
  final_trace (run_body w initial_state) = pre ++ line :: post ->
  is_ok line = false ->
  post = []
  /\ exists e x, line = Failed e x /\ outcome_of (run_body w initial_state) = Raised x.
Proof.
  intros Et Hl. destruct (run_body_orderly w initial_state) as (new & En & On).
  cbn [trace initial_state app] in En. rewrite En in Et.
  destruct line as [e | e x]; [discriminate Hl |].
  destruct (outcome_of (run_body w initial_state)) as [[] | y].
  - exfalso. revert Et. apply not_ok_in_all_ok; auto.
  - destruct On as [(pre' & e' & -> & Hpre) | [Hok _]].
    + apply failed_after_ok_unique in Et; [| apply all_ok_Forall, Hpre].
      destruct Et as (_ & -> & -> & ->). split; [reflexivity |]. eauto.
    + exfalso. revert Et. apply not_ok_in_all_ok; auto.
Qed.

(** X4. The [try] block of [run] stops at the first call that raises: a
    line of its trace that did not return is its last line, and the
    exception of that call is the one that leaves the block.  Conversely an
    exception that leaves the block is the exception of its last call, or
    it is the type-checking report raised by the gate under [Strict] right
    after the [type_checking] call returned: the block raises nothing else
    by itself (in particular [self.scanned_classes] is never read before it
    is set). *)
Theorem try_block_stops_at_first_failed_call (w : World) :
  let r := run_body w initial_state in
  (forall pre line post,
      final_trace r = pre ++ line :: post ->
      is_ok line = false ->
      post = [] /\ exists e x, line = Failed e x /\ outcome_of r = Raised x)
  /\ (forall x,
         outcome_of r = Raised x ->
         (exists pre e, final_trace r = pre ++ [Failed e x])
         \/ strict_abort w x (final_trace r)).
Proof.
  cbv zeta. split.
  - apply try_block_failed_line_is_last.
  - intros x Hx. destruct (run_body_orderly w initial_state) as (new & En & On).
    cbn [trace initial_state app] in En, On. rewrite Hx in On. rewrite En.
    destruct On as [(pre & e & -> & _) | [_ HQ]]; eauto.
Qed.

Lemma try_block_stops_at_first_failed_call_witness :
  @nil entry = []
  /\ exists e x,
       Failed (finish_initialization_cycle "cache") "ConnectionError" = Failed e x
       /\ outcome_of (run_body failing_init_world initial_state) = Raised x.
Proof.
  destruct (try_block_stops_at_first_failed_call failing_init_world) as [H _].
  apply (H (firstn 9 (final_trace (run_body failing_init_world initial_state)))
           (Failed (finish_initialization_cycle "cache") "ConnectionError") []).
  - vm_compute. reflexivity.
  - reflexivity.
Defined.

(** X5. [run] swallows no exception: if any call of a run raised, [run]
    raises.  And [run] raises nothing of its own: the exception that leaves
    it is the exception of a call that raised, or the type-checking report
    under [Strict]. *)
Theorem run_raises_exactly_when_a_call_failed (w : World) :
  let r := run w initial_state in
  (forall e x, In (Failed e x) (final_trace r) -> exists y, outcome_of r = Raised y)
  /\ (forall y,
         outcome_of r = Raised y ->
         (exists e, In (Failed e y) (final_trace r))
         \/ (type_checking_mode w = Strict /\ type_checking_report w = Some y)).
Proof.
  cbv zeta. unfold run. rewrite try_finally_trace, try_finally_outcome.
  destruct (destroy_pass_shape w (snd (run_body w initial_state)))
    as (lines & Et & _ & Ol).
  destruct (run_body_orderly w initial_state) as (new & En & On).
  cbn [trace initial_state app] in En. unfold final_trace in En.
  rewrite Et, En.
  destruct (outcome_of (_handle_singleton_components_life_cycle w Destruction
                          (snd (run_body w initial_state)))) as [[] | z].
  - split.
    + intros e x Hin.
      destruct (outcome_of (run_body w initial_state)) as [[] | y]; [| eauto].
      exfalso. apply in_app_or in Hin as [Hin | Hin].
      * apply (proj1 (forallb_forall _ _) On) in Hin. discriminate Hin.
      * apply (proj1 (forallb_forall _ _) Ol) in Hin. discriminate Hin.
    + intros y Hy. rewrite Hy in On.
      destruct On as [(pre & e & -> & _) | [_ (Em & Er & _)]]; [left | right; auto].
      exists e. apply in_or_app. left. apply in_or_app. right. left. reflexivity.
  - split; [eauto |]. intros y Hy. injection Hy as ->.
    destruct Ol as (pre & e & -> & _). left. exists e.
    apply in_or_app. right. apply in_or_app. right. left. reflexivity.
Qed.

Lemma run_raises_exactly_when_a_call_failed_witness :
  exists y, outcome_of (run failing_hook_world initial_state) = Raised y.
Proof.
  destruct (run_raises_exactly_when_a_call_failed failing_hook_world) as [H _].
  apply (H (finish_destruction_cycle "cache") "RuntimeError: cache is busy").
  vm_compute. do 13 right. left. reflexivity.
Defined.

Lemma destroy_pass_from_calls w t lines :
  destroy_pass_from w t lines -> Forall (only destroy_pass_call) lines.
Proof.
  assert (Hmap : forall l : list component_instance,
             Forall (only destroy_pass_call)
                    (map (fun i => Ok (finish_destruction_cycle i)) l)).
  { induction l; cbn; constructor; auto. reflexivity. }
  intros [(x & ->) | [-> | (done & i & rest & x & _ & ->)]].
  - repeat constructor.
  - constructor; [reflexivity | apply Hmap].
  - constructor; [reflexivity |]. apply Forall_app. split; [apply Hmap |].
    repeat constructor.
Qed.

(** X6. After a call of the bootstrap raises, nothing of the bootstrap is
    done any more: what follows the failed call in the trace of the run is
    one destroy pass and nothing else. *)
Theorem after_a_failed_call_only_the_destroy_pass_runs (w : World) pre e x post :
  final_trace (run w initial_state) = pre ++ Failed e x :: post ->
  destroy_pass_call e = false ->
  destroy_pass_from w (pre ++ [Failed e x]) post.
Proof.
  unfold run. rewrite try_finally_trace. intros Et He.
  destruct (destroy_pass_shape w (snd (run_body w initial_state)))
    as (lines & El & Hd & _).
  rewrite El in Et. fold (final_trace (run_body w initial_state)) in *.
  assert (Hnot : ~ In (Failed e x) lines).
  { intros Hin. apply destroy_pass_from_calls in Hd.
    rewrite Forall_forall in Hd. apply Hd in Hin. unfold only in Hin. cbn in Hin.
    congruence. }
  apply app_eq_app in Et as [l [[Eb Ep] | [Ep Elines]]].
  - destruct l as [| a l]; cbn in Ep.
    + exfalso. apply Hnot. rewrite <- Ep. left. reflexivity.
    + injection Ep as <- ->.
      destruct (try_block_failed_line_is_last w _ _ _ Eb eq_refl) as [-> _].
      rewrite Eb in Hd. exact Hd.
  - exfalso. apply Hnot. rewrite Elines. apply in_or_app. right. left. reflexivity.
Qed.

Lemma after_a_failed_call_only_the_destroy_pass_runs_witness :
  destroy_pass_from failing_init_world
    (firstn 9 (final_trace (run failing_init_world initial_state))
       ++ [Failed (finish_initialization_cycle "cache") "ConnectionError"])
    [ Ok get_singleton_component_instances;
      Ok (finish_destruction_cycle "cache");
      Ok (finish_destruction_cycle "mailer") ].
Proof.
  apply (@after_a_failed_call_only_the_destroy_pass_runs failing_init_world
           (firstn 9 (final_trace (run failing_init_world initial_state)))
           (finish_initialization_cycle "cache") "ConnectionError").
  - vm_compute. reflexivity.
  - reflexivity.
Defined.

(** ** Serving and logging *)

(** A watched line among unwatched ones is found at one place only. *)
Lemma unique_position p (A n pre post : list entry) l0 line :
  Forall (only p) A -> Forall (only p) n -> p (event_of line) = false ->
  A ++ l0 :: n = pre ++ line :: post ->
  pre = A /\ line = l0 /\ post = n.
Proof.
  intros HA Hn Hl. revert pre. induction HA as [| a A Ha _ IH]; intros pre E.
  - destruct pre as [| b pre]; cbn in E.
    + injection E as <- <-. auto.
    + exfalso. injection E as _ E. rewrite E in Hn.
      apply Forall_app in Hn as [_ Hn]. inversion Hn as [| ? ? H _].
      unfold only in H. congruence.
  - destruct pre as [| b pre]; cbn in E.
    + exfalso. injection E as E _. subst a. unfold only in Ha. congruence.
    + injection E as <- E. destruct (IH _ E) as (-> & -> & ->). auto.
Qed.

Lemma watched_not_among p (t pre post : list entry) line :
  Forall (only p) t -> p (event_of line) = false -> t <> pre ++ line :: post.
Proof.
  intros Ht Hl ->. apply Forall_app in Ht as [_ Ht]. inversion Ht as [| ? ? H _].
  unfold only in H. congruence.
Qed.

Lemma before_serving_Returned w s1 :
  sequence (steps_before_serving w) initial_state = (Returned tt, s1) ->
  injected_and_initialized w (trace s1) /\ controllers_bound w (trace s1).
Proof.
  unfold steps_before_serving. intros H.
  apply sequence_app_Returned in H as (s0 & H0 & H).
  apply init_app_Returned_milestone in H0.
  peel H s2 H2. apply sequence_nil_Returned in H. subst s2.
  destruct (controllers_follow_the_schedule_lemma w s0)
    as [[_ Ht] | (done & e & rest & x & _ & Ho & _)].
  - unfold final_trace in Ht. rewrite H2 in Ht. cbn [snd] in Ht. rewrite Ht.
    split.
    + apply injected_and_initialized_grows, H0.
    + exists (trace s0), []. rewrite app_nil_r. reflexivity.
  - unfold outcome_of in Ho. rewrite H2 in Ho. discriminate Ho.
Qed.

(** X7. The server is started only when it is enabled, and then as the very
    last call of the bootstrap: before [uvicorn.run] every call of the run
    has returned, dependency injection and the initialisation hooks are
    done and every controller the context reported is bound; after it only
    the destroy pass follows.  With the server disabled [uvicorn.run] is
    never called. *)
Theorem server_starts_last_and_only_when_enabled (w : World) :
  let t := final_trace (run w initial_state) in
  (server_enabled w = false -> ~ In uvicorn_run (events t))
  /\ (forall pre line post,
         t = pre ++ line :: post ->
         event_of line = uvicorn_run ->
         server_enabled w = true
         /\ forallb is_ok pre = true
         /\ injected_and_initialized w pre
         /\ controllers_bound w pre
         /\ Forall (only destroy_pass_call) post).
Proof.
  cbv zeta.
  assert (Hd : emits (only destroy_pass_call)
                 (_handle_singleton_components_life_cycle w Destruction))
    by emits_auto.
  pose proof (@run_focus w (only destroy_pass_call) (steps_before_serving w) []
                (serve_if_enabled w) eq_refl (Forall_nil _) Hd) as Hf.
  assert (Hq : emits (only not_uvicorn_run) (sequence (steps_before_serving w))).
  { apply emits_sequence.
    unfold steps_before_serving, init_app_steps, local_registration. cbn [app].
    repeat constructor; emits_auto. }
  destruct (Hq initial_state) as (nb & Eb & Fb). unfold final_trace in Eb.
  cbn [trace initial_state app] in Eb.
  assert (Hbody : forall s1,
             sequence (steps_before_serving w) initial_state = (Returned tt, s1) ->
             run_body w initial_state = serve_if_enabled w s1).
  { intros s1 Es. rewrite run_body_as_steps.
    change (run_body_steps w)
      with (steps_before_serving w ++ [serve_if_enabled w]).
    rewrite sequence_app. erewrite bind_of_Returned by exact Es.
    cbn [sequence]. apply bind_ret_tt. }
  assert (Hquiet : forall n,
             Forall (only destroy_pass_call) n -> Forall (only not_uvicorn_run) n).
  { intros n. apply Forall_impl. intros l Hl. unfold only in *.
    destruct (event_of l); try reflexivity; discriminate Hl. }
  destruct (sequence (steps_before_serving w) initial_state) as [[[] | x] s1] eqn:Es;
    cbn [snd] in Eb; destruct Hf as (n & En & Fn).
  - specialize (Hbody s1 eq_refl). unfold serve_if_enabled in *.
    destruct (server_enabled w) eqn:Hen.
    + split; [discriminate |]. intros pre line post Et El.
      assert (Hcall : exists l0, final_trace (__run_server w s1) = trace s1 ++ [l0]).
      { unfold __run_server.
        destruct (call_cases w uvicorn_run s1) as [Ec | [y Ec]]; rewrite Ec;
          eexists; reflexivity. }
      destruct Hcall as [l0 Ec]. rewrite En, Ec, <- app_assoc in Et. cbn [app] in Et.
      apply (unique_position (p := not_uvicorn_run)) in Et;
        [| rewrite Eb; exact Fb | apply Hquiet, Fn | rewrite El; reflexivity].
      destruct Et as (-> & -> & ->).
      destruct (before_serving_Returned w Es) as [Hi Hc].
      split; [reflexivity |]. split; [| auto].
      apply forallb_forall. intros l Hin. destruct (is_ok l) eqn:Hl; [reflexivity |].
      exfalso. apply in_split in Hin as (a & b & Eab).
      destruct (@try_block_failed_line_is_last w a l (b ++ [l0])) as [Hnil _].
      * rewrite Hbody, Ec, Eab, <- app_assoc. reflexivity.
      * exact Hl.
      * destruct b; discriminate Hnil.
    + assert (Hall : Forall (only not_uvicorn_run) (final_trace (run w initial_state))).
      { rewrite En. unfold final_trace at 1. unfold ret. cbn [snd]. rewrite Eb.
        apply Forall_app. auto. }
      split.
      * intros _. eapply only_not_in; [exact Hall | reflexivity].
      * intros pre line post Et El. exfalso. revert Et.
        apply (@watched_not_among not_uvicorn_run); [exact Hall |].
        rewrite El. reflexivity.
  - assert (Hall : Forall (only not_uvicorn_run) (final_trace (run w initial_state))).
    { rewrite En, Eb. apply Forall_app. auto. }
    split.
    + intros _. eapply only_not_in; [exact Hall | reflexivity].
    + intros pre line post Et El. exfalso. revert Et.
      apply (@watched_not_among not_uvicorn_run); [exact Hall |].
        rewrite El. reflexivity.
Qed.

Lemma server_starts_last_and_only_when_enabled_witness :
  server_enabled demo_world = true
  /\ forallb is_ok (firstn 32 demo_trace) = true
  /\ injected_and_initialized demo_world (firstn 32 demo_trace)
  /\ controllers_bound demo_world (firstn 32 demo_trace)
  /\ Forall (only destroy_pass_call) (skipn 33 demo_trace).
Proof.
  destruct (server_starts_last_and_only_when_enabled demo_world) as [_ H].
  apply (H (firstn 32 demo_trace) (Ok uvicorn_run) (skipn 33 demo_trace)).
  - vm_compute. reflexivity.
  - reflexivity.
Defined.

(** X8. The log file sink is added at most once in a run, as its very first
    call, and only when a non-empty log file path is configured; it is
    added for that path. *)
Theorem log_sink_is_added_first_and_once (w : World) pre line post path :
  final_trace (run w initial_state) = pre ++ line :: post ->
  event_of line = logger_add path ->
  pre = []
  /\ log_file_path w = Some path
  /\ path <> ""
  /\ Forall (only not_logger_add) post.
Proof.
  intros Et El.
  assert (Hd : emits (only not_logger_add)
                 (_handle_singleton_components_life_cycle w Destruction))
    by emits_auto.
  destruct (@run_focus w (only not_logger_add) [] (skipn 1 (run_body_steps w))
              (__configure_logging w) eq_refl) as (n & En & Fn).
  { unfold run_body_steps, init_app_steps, serve_if_enabled, local_registration.
    cbn [app skipn]. repeat constructor; emits_auto. }
  { exact Hd. }
  rewrite En in Et. unfold __configure_logging in Et.
  destruct (log_file_path w) as [[| a p] |].
  - exfalso. revert Et. apply (@watched_not_among not_logger_add); [exact Fn |].
    rewrite El. reflexivity.
  - assert (Hcall : exists l0,
               final_trace (call w (logger_add (String a p)) initial_state) = [l0]
               /\ event_of l0 = logger_add (String a p)).
    { destruct (call_cases w (logger_add (String a p)) initial_state)
        as [Ec | [y Ec]]; rewrite Ec; eexists; split; reflexivity. }
    destruct Hcall as (l0 & Ec & E0). rewrite Ec in Et. cbn [app] in Et.
    apply (@unique_position not_logger_add [] n pre post l0 line) in Et;
      [| constructor | exact Fn | rewrite El; reflexivity].
    destruct Et as (-> & -> & ->). rewrite E0 in El. injection El as <-.
    split; [reflexivity |]. split; [reflexivity |].
    split; [discriminate | exact Fn].
  - exfalso. revert Et. apply (@watched_not_among not_logger_add); [exact Fn |].
    rewrite El. reflexivity.
Qed.

Lemma log_sink_is_added_first_and_once_witness :
  @nil entry = []
  /\ log_file_path demo_world = Some "app.log"
  /\ "app.log" <> ""
  /\ Forall (only not_logger_add) (skipn 1 demo_trace).
Proof.
  apply (@log_sink_is_added_first_and_once demo_world [] (Ok (logger_add "app.log"))
           (skipn 1 demo_trace) "app.log").
  - vm_compute. reflexivity.
  - reflexivity.
Defined.

(** X9. With an empty type-checking report the configured severity changes
    nothing: the run is the same under every severity. *)
Theorem severity_is_irrelevant_without_a_report (w : World) mode s :
  type_checking_report w = None ->
  run w s = run (with_mode w mode) s.
Proof.
  intros Er. apply run_body_ext; try reflexivity.
  intros s0. rewrite !type_checking_cases. cbn. rewrite Er. reflexivity.
Qed.

Lemma severity_is_irrelevant_without_a_report_witness :
  run failing_init_world initial_state =
  run (with_mode failing_init_world Strict) initial_state.
Proof.
  apply (@severity_is_irrelevant_without_a_report failing_init_world Strict
           initial_state).
  reflexivity.
Defined.

(** * Properties of the repository *)

Module CrudFacts.

Import Crud.

Section Commit.

Variable db : Database.
Variable o : session -> op.
Variable s : session.

Lemma call_paths (c : op) t :
  call db c t = (Returns tt, t ++ [Done c])
  \/ exists x, call db c t = (Raises x, t ++ [Threw c x]).
Proof.
  unfold call, call_for. destruct (throws db t c); eauto.
Qed.

Lemma try_clause_paths t :
  exists body e,
    bind (one_call db o s) (fun _ => call db (commit s)) t
      = (pending tt e, t ++ body)
    /\ attempted (o s) s body e.
Proof.
  unfold bind, one_call.
  destruct (call_paths (o s) t) as [E | [x E]]; rewrite E.
  - destruct (call_paths (commit s) (t ++ [Done (o s)])) as [E' | [x E']];
      rewrite E', <- app_assoc.
    + exists [Done (o s); Done (commit s)], None. split; [reflexivity | constructor].
    + exists [Done (o s); Threw (commit s) x], (Some x).
      split; [reflexivity | constructor].
  - exists [Threw (o s) x], (Some x). split; [reflexivity | constructor].
Qed.

Lemma except_clause_paths name t :
  exists hand y,
    bind (call db (logger_error (Exception name))) (fun _ =>
    bind (call db (rollback s)) (fun _ =>
    @raise unit (Exception name))) t = (Raises y, t ++ hand)
    /\ handled s (Some (Exception name)) hand (Some y).
Proof.
  unfold bind.
  destruct (call_paths (logger_error (Exception name)) t) as [E | [x E]]; rewrite E.
  - destruct (call_paths (rollback s) (t ++ [Done (logger_error (Exception name))]))
      as [E' | [x E']]; rewrite E', <- app_assoc.
    + eexists _, _. split; [reflexivity | constructor].
    + eexists _, _. split; [reflexivity | constructor].
  - eexists _, _. split; [reflexivity | constructor].
Qed.

(** Every run of [_commit_operation_in_session] on a one-call operation is
    made of the lines of the [try] clause, those of the [except] clause and
    the line of the [finally] clause. *)
Lemma commit_operation_paths t :
  exists body e1 hand e2 cl r,
    _commit_operation_in_session db (one_call db o) s t
      = (r, t ++ body ++ hand ++ [cl])
    /\ attempted (o s) s body e1
    /\ handled s e1 hand e2
    /\ closed s e2 cl r.
Proof.
  unfold _commit_operation_in_session, try_except_finally.
  destruct (try_clause_paths t) as (body & e1 & Eb & Hb).
  unfold bind at 1. rewrite Eb.
  assert (Hh : exists hand e2,
             match pending tt e1 with
             | Raises (Exception name) =>
                 bind (call db (logger_error (Exception name))) (fun _ =>
                 bind (call db (rollback s)) (fun _ =>
                 @raise unit (Exception name))) (t ++ body)
             | _ => (pending tt e1, t ++ body)
             end = (pending tt e2, (t ++ body) ++ hand)
             /\ handled s e1 hand e2).
  { destruct e1 as [[name | name] |]; cbn [pending].
    - destruct (except_clause_paths name (t ++ body)) as (hand & y & E & H).
      exists hand, (Some y). auto.
    - exists [], (Some (BaseException name)). rewrite app_nil_r.
      split; [reflexivity | constructor].
    - exists [], None. rewrite app_nil_r. split; [reflexivity | constructor]. }
  destruct Hh as (hand & e2 & Eh & Hh). rewrite Eh.
  destruct (call_paths (close s) ((t ++ body) ++ hand)) as [E | [z E]]; rewrite E.
  - destruct e2 as [x |]; cbn [pending ret];
      eexists body, e1, hand, _, _, _;
      (split; [rewrite <- !app_assoc; reflexivity |]);
      (split; [exact Hb |]); (split; [exact Hh |]); constructor.
  - eexists body, e1, hand, e2, _, _.
    split; [rewrite <- !app_assoc; reflexivity |].
    split; [exact Hb |]. split; [exact Hh |]. constructor.
Qed.

End Commit.

Ltac commit_paths db o s t :=
  let body := fresh "body" in
  let hand := fresh "hand" in
  let cl := fresh "cl" in
  let r := fresh "r" in
  let e1 := fresh "e1" in
  let e2 := fresh "e2" in
  let E := fresh "E" in
  let Hb := fresh "Hb" in
  let Hh := fresh "Hh" in
  let Hc := fresh "Hc" in
  destruct (commit_operation_paths db o s t)
    as (body & e1 & hand & e2 & cl & r & E & Hb & Hh & Hc);
  rewrite E in *; cbn [fst snd] in *;
  inversion Hb; subst; inversion Hh; subst; inversion Hc; subst;
  cbn [app] in *.

(** Every place [pre ++ l :: post] at which a given list can be cut. *)
Ltac positions H :=
  lazymatch type of H with
  | [] = ?pre ++ _ :: _ => destruct pre; discriminate H
  | _ :: _ = ?pre ++ _ :: _ =>
      let a := fresh "a" in
      let Ha := fresh "Ha" in
      let H' := fresh "H" in
      destruct pre as [| a pre]; cbn [app] in H;
      [ injection H as Ha H'; subst
      | injection H as Ha H'; subst a; positions H' ]
  end.

(** X11. [_commit_operation_in_session] never returns [False]: it returns
    [True], and only when the operation, the commit and the closing of the
    session have all returned, in this order and with no other call. *)
Theorem commit_operation_returns_only_when_committed_and_closed
    (db : Database) (o : session -> op) (s : session) t b :
  fst (_commit_operation_in_session db (one_call db o) s t) = Returns b ->
  b = true
  /\ snd (_commit_operation_in_session db (one_call db o) s t)
     = t ++ [Done (o s); Done (commit s); Done (close s)].
Proof.
  intros H. commit_paths db o s t; auto.
Qed.

Lemma commit_operation_returns_only_when_committed_and_closed_witness :
  true = true
  /\ snd (_commit_operation_in_session healthy_database
            (one_call healthy_database (fun s => add s "alice")) 4 [])
     = [] ++ [Done (add 4 "alice"); Done (commit 4); Done (close 4)].
Proof.
  apply (@commit_operation_returns_only_when_committed_and_closed
           healthy_database (fun s => add s "alice") 4 [] true).
  reflexivity.
Defined.

(** X10. Whatever happens in [_commit_operation_in_session] -- the
    operation, the commit, the logger or the rollback raising, an
    [Exception] or not -- closing the session is attempted, exactly once,
    and it is the last call made. *)
Theorem session_is_closed_last_and_once
    (db : Database) (o : session -> op) (s : session) t :
  writes (o s) = true ->
  exists pre cl,
    snd (_commit_operation_in_session db (one_call db o) s t) = t ++ pre ++ [cl]
    /\ op_of cl = close s
    /\ ~ In (close s) (ops pre).
Proof.
  intros Hw.
  assert (Ho : o s <> close s) by (intros E; rewrite E in Hw; discriminate Hw).
  commit_paths db o s t;
    match goal with
    | |- exists pre cl, ?t ++ ?new = _ /\ _ =>
        exists (removelast new), (last new (Done (close s)))
    end;
    cbn [removelast last app];
    (split; [reflexivity |]); (split; [reflexivity |]);
    cbn [ops map op_of In]; intros Hin;
    repeat destruct Hin as [Hin | Hin]; congruence || discriminate Hin || exact Hin.
Qed.

Lemma session_is_closed_last_and_once_witness :
  exists pre cl,
    snd (_commit_operation_in_session failing_commit_database
           (one_call failing_commit_database (fun s => add s "alice")) 4 [])
      = [] ++ pre ++ [cl]
    /\ op_of cl = close 4
    /\ ~ In (close 4) (ops pre).
Proof.
  apply (@session_is_closed_last_and_once failing_commit_database
           (fun s => add s "alice") 4 []).
  reflexivity.
Defined.

(** X15. When closing the session raises, that exception is the one that
    leaves [_commit_operation_in_session], whatever happened before: it
    replaces the exception of a failed operation, and it is raised even
    though the operation was committed. *)
Theorem close_failure_replaces_everything
    (db : Database) (o : session -> op) (s : session) t pre z :
  snd (_commit_operation_in_session db (one_call db o) s t)
    = t ++ pre ++ [Threw (close s) z] ->
  fst (_commit_operation_in_session db (one_call db o) s t) = Raises z.
Proof.
  intros H. commit_paths db o s t; apply app_inv_head in H;
    match type of H with
    | ?new = _ =>
        change new with (removelast new ++ [last new (Done (close s))]) in H
    end;
    cbn [removelast last] in H; apply app_inj_tail in H as [_ H];
    (discriminate H || (injection H as <-; reflexivity)).
Qed.

Lemma close_failure_replaces_everything_witness :
  fst (_commit_operation_in_session interrupted_database
         (one_call interrupted_database (fun s => add s "alice")) 4 [])
  = Raises (Exception "OperationalError").
Proof.
  apply (@close_failure_replaces_everything interrupted_database
           (fun s => add s "alice") 4 []
           [Threw (add 4 "alice") (BaseException "KeyboardInterrupt")]).
  reflexivity.
Defined.

(** X12. [_commit_operation_in_session] never commits after a failed
    operation and never rolls back without cause: the commit is attempted
    only right after the operation returned, and the rollback only after
    the operation or the commit raised an [Exception] and the logger
    recorded it; after the rollback only the closing of the session
    follows. *)
Theorem commit_and_rollback_are_never_misplaced
    (db : Database) (o : session -> op) (s : session) t pre l post :
  writes (o s) = true ->
  snd (_commit_operation_in_session db (one_call db o) s t) = t ++ pre ++ l :: post ->
  (op_of l = commit s -> pre = [Done (o s)])
  /\ (op_of l = rollback s ->
      exists name,
        (pre = [ Threw (o s) (Exception name);
                 Done (logger_error (Exception name)) ]
         \/ pre = [ Done (o s); Threw (commit s) (Exception name);
                    Done (logger_error (Exception name)) ])
        /\ exists cl, post = [cl] /\ op_of cl = close s).
Proof.
  intros Hw H.
  assert (Ho : o s <> commit s /\ o s <> rollback s)
    by (split; intros E; rewrite E in Hw; discriminate Hw).
  destruct Ho as [Hoc Hor].
  commit_paths db o s t; apply app_inv_head in H; positions H;
    (split; intros Hop; cbn [op_of] in Hop;
     try congruence; try discriminate Hop; try reflexivity);
    eexists; (split; [(left; reflexivity) || (right; reflexivity) |]);
    eexists; split; reflexivity.
Qed.

Lemma commit_and_rollback_are_never_misplaced_witness :
  (op_of (Done (rollback 4)) = commit 4 ->
   [ Done (add 4 "alice"); Threw (commit 4) (Exception "IntegrityError");
     Done (logger_error (Exception "IntegrityError")) ] = [Done (add 4 "alice")])
  /\ (op_of (Done (rollback 4)) = rollback 4 ->
      exists name,
        ([ Done (add 4 "alice"); Threw (commit 4) (Exception "IntegrityError");
           Done (logger_error (Exception "IntegrityError")) ]
         = [ Threw (add 4 "alice") (Exception name);
             Done (logger_error (Exception name)) ]
         \/ [ Done (add 4 "alice"); Threw (commit 4) (Exception "IntegrityError");
              Done (logger_error (Exception "IntegrityError")) ]
            = [ Done (add 4 "alice"); Threw (commit 4) (Exception name);
                Done (logger_error (Exception name)) ])
        /\ exists cl, [Done (close 4)] = [cl] /\ op_of cl = close 4).
Proof.
  apply (@commit_and_rollback_are_never_misplaced failing_commit_database
           (fun s => add s "alice") 4 []).
  - reflexivity.
  - reflexivity.
Defined.

Ltac same_line Ha :=
  first [ discriminate Ha
        | injection Ha; clear Ha; intros; subst
        | subst ].

(** Every place at which a given list holds a line that raised. *)
Ltac threw_positions H :=
  lazymatch type of H with
  | [] = ?pre ++ _ :: _ => destruct pre; discriminate H
  | _ :: _ = ?pre ++ _ :: _ =>
      let a := fresh "a" in
      let Ha := fresh "Ha" in
      let H' := fresh "H" in
      destruct pre as [| a pre]; cbn [app] in H;
      [ injection H as Ha H'; same_line Ha; subst
      | injection H as Ha H'; subst a; threw_positions H' ]
  end.

(** X13. When the operation or the commit raises an [Exception] and
    nothing else goes wrong, the exception is logged, the session is rolled
    back and closed, in this order, and the same exception leaves
    [_commit_operation_in_session]. *)
Theorem caught_exception_is_rolled_back_and_raised_again
    (db : Database) (o : session -> op) (s : session) t pre c name post :
  snd (_commit_operation_in_session db (one_call db o) s t)
    = t ++ pre ++ Threw c (Exception name) :: post ->
  forallb returned pre = true ->
  forallb returned post = true ->
  c <> close s ->
  fst (_commit_operation_in_session db (one_call db o) s t) = Raises (Exception name)
  /\ post = [ Done (logger_error (Exception name)); Done (rollback s);
              Done (close s) ].
Proof.
  intros H Hpre Hpost Hc.
  commit_paths db o s t; apply app_inv_head in H; threw_positions H;
    cbn [forallb returned andb] in Hpre, Hpost;
    try discriminate Hpre; try discriminate Hpost; try congruence;
    split; reflexivity.
Qed.

Lemma caught_exception_is_rolled_back_and_raised_again_witness :
  fst (_commit_operation_in_session failing_commit_database
         (one_call failing_commit_database (fun s => add s "alice")) 4 [])
    = Raises (Exception "IntegrityError")
  /\ [ Done (logger_error (Exception "IntegrityError")); Done (rollback 4);
       Done (close 4) ]
     = [ Done (logger_error (Exception "IntegrityError")); Done (rollback 4);
         Done (close 4) ].
Proof.
  apply (@caught_exception_is_rolled_back_and_raised_again failing_commit_database
           (fun s => add s "alice") 4 [] [Done (add 4 "alice")] (commit 4)
           "IntegrityError").
  - reflexivity.
  - reflexivity.
  - reflexivity.
  - discriminate.
Defined.

(** X14. An exception of the operation or of the commit that is not an
    [Exception] (a keyboard interrupt, say) is neither logged nor followed
    by a rollback: the only call made after it is the closing of the
    session, and when that returns the exception leaves
    [_commit_operation_in_session]. *)
Theorem uncaught_exception_skips_the_rollback
    (db : Database) (o : session -> op) (s : session) t pre c name post :
  snd (_commit_operation_in_session db (one_call db o) s t)
    = t ++ pre ++ Threw c (BaseException name) :: post ->
  forallb returned pre = true ->
  c <> close s ->
  exists cl,
    post = [cl]
    /\ op_of cl = close s
    /\ (returned cl = true ->
        fst (_commit_operation_in_session db (one_call db o) s t)
          = Raises (BaseException name)).
Proof.
  intros H Hpre Hc.
  commit_paths db o s t; apply app_inv_head in H; threw_positions H;
    cbn [forallb returned andb] in Hpre;
    try discriminate Hpre; try congruence;
    eexists; (split; [reflexivity |]); (split; [reflexivity |]);
    cbn [returned]; intros Hr; reflexivity || discriminate Hr.
Qed.

Lemma uncaught_exception_skips_the_rollback_witness :
  exists cl,
    [Done (close 4)] = [cl]
    /\ op_of cl = close 4
    /\ (returned cl = true ->
        fst (_commit_operation_in_session keyboard_interrupt_database
               (one_call keyboard_interrupt_database (fun s => add s "alice")) 4 [])
          = Raises (BaseException "KeyboardInterrupt")).
Proof.
  apply (@uncaught_exception_skips_the_rollback keyboard_interrupt_database
           (fun s => add s "alice") 4 [] [] (add 4 "alice") "KeyboardInterrupt").
  - reflexivity.
  - reflexivity.
  - discriminate.
Defined.

Lemma session_or_create_paths db given t :
  session_or_create db given t
    = (Returns (working_session db given t), t ++ creation_lines given)
  \/ (given = None
      /\ exists x, session_or_create db given t = (Raises x, t ++ [Threw new_session x])).
Proof.
  destruct given as [s |]; cbn.
  - left. unfold ret. rewrite app_nil_r. reflexivity.
  - unfold _create_session, call_for. destruct (throws db t new_session); eauto.
Qed.

Lemma write_through_returns db o given t b :
  fst (write_through db o given t) = Returns b ->
  let s := working_session db given t in
  b = true
  /\ snd (write_through db o given t)
     = t ++ creation_lines given ++ [Done (o s); Done (commit s); Done (close s)].
Proof.
  cbv zeta. unfold write_through, bind.
  destruct (session_or_create_paths db given t) as [E | (_ & x & E)]; rewrite E.
  - intros H.
    commit_paths db o (working_session db given t) (t ++ creation_lines given).
    rewrite <- app_assoc. auto.
  - intros H. discriminate H.
Qed.

(** X16. [save] returns the very entity it was given, and only after that
    entity was added to the working session (the one given, or else the one
    created first), the session was committed and then closed, all calls
    having returned and no other call having been made. *)
Theorem save_returns_the_entity_once_stored
    (db : Database) (e : entity) (given : option session) t e' :
  fst (save db e given t) = Returns e' ->
  let s := working_session db given t in
  e' = e
  /\ snd (save db e given t)
     = t ++ creation_lines given ++ [Done (add s e); Done (commit s); Done (close s)].
Proof.
  cbv zeta. intros H.
  assert (E : save db e given t
              = bind (write_through db (fun s' => add s' e) given)
                     (fun _ => ret e) t).
  { unfold save, write_through, bind.
    destruct (session_or_create db given t) as [[s | x] t1]; reflexivity. }
  rewrite E in *. unfold bind in *.
  pose proof (@write_through_returns db (fun s' => add s' e) given t) as Hw.
  destruct (write_through db (fun s' => add s' e) given t) as [[b | x] t1];
    cbn [fst snd ret] in *; [| discriminate H].
  injection H as <-. destruct (Hw b eq_refl) as [_ Ht]. auto.
Qed.

Lemma save_returns_the_entity_once_stored_witness :
  "alice" = "alice"
  /\ snd (save healthy_database "alice" None [])
     = [] ++ creation_lines None
          ++ [Done (add 0 "alice"); Done (commit 0); Done (close 0)].
Proof.
  apply (@save_returns_the_entity_once_stored healthy_database "alice" None []
           "alice").
  reflexivity.
Defined.

(** X17. [save_all] and [delete] never return [False]: they return [True],
    and only after the entities were added to, or the entity deleted from,
    the working session, and the session was committed and then closed. *)
Theorem save_all_and_delete_return_only_when_committed
    (db : Database) (given : option session) t b :
  let s := working_session db given t in
  (forall es,
      fst (save_all db es given t) = Returns b ->
      b = true
      /\ snd (save_all db es given t)
         = t ++ creation_lines given
             ++ [Done (add_all s es); Done (commit s); Done (close s)])
  /\ (forall e,
         fst (delete db e given t) = Returns b ->
         b = true
         /\ snd (delete db e given t)
            = t ++ creation_lines given
                ++ [Done (delete_entity s e); Done (commit s); Done (close s)]).
Proof.
  cbv zeta. split.
  - intros es. apply (@write_through_returns db (fun s' => add_all s' es)).
  - intros e. apply (@write_through_returns db (fun s' => delete_entity s' e)).
Qed.

Lemma save_all_and_delete_return_only_when_committed_witness :
  true = true
  /\ snd (delete healthy_database "bob" (Some 9) [])
     = [] ++ creation_lines (Some 9)
          ++ [Done (delete_entity 9 "bob"); Done (commit 9); Done (close 9)].
Proof.
  destruct (@save_all_and_delete_return_only_when_committed healthy_database
              (Some 9) [] true) as [_ H].
  apply (H "bob"). reflexivity.
Defined.

Lemma write_through_closes db o given t :
  (forall s, writes (o s) = true) ->
  let s := working_session db given t in
  (given = None
   /\ exists x, write_through db o given t = (Raises x, t ++ [Threw new_session x]))
  \/ exists pre cl,
       snd (write_through db o given t) = t ++ creation_lines given ++ pre ++ [cl]
       /\ op_of cl = close s
       /\ ~ In (close s) (ops pre).
Proof.
  cbv zeta. intros Hw. unfold write_through, bind.
  destruct (session_or_create_paths db given t) as [E | (Hg & x & E)]; rewrite E.
  - right.
    assert (Ho : o (working_session db given t) <> close (working_session db given t)).
    { intros Eo. specialize (Hw (working_session db given t)).
      rewrite Eo in Hw. discriminate Hw. }
    commit_paths db o (working_session db given t) (t ++ creation_lines given);
      match goal with
      | |- exists pre cl, (?t ++ ?c) ++ ?new = _ /\ _ =>
          exists (removelast new), (last new (Done new_session))
      end;
      cbn [removelast last app];
      (split; [rewrite <- app_assoc; reflexivity |]); (split; [reflexivity |]);
      cbn [ops map op_of In]; intros Hin;
      repeat destruct Hin as [Hin | Hin];
      congruence || discriminate Hin || exact Hin.
  - left. eauto.
Qed.

(** X18. [save], [save_all] and [delete] always end by closing the session
    they worked on, also when that session was handed in by the caller and
    also when they raise; the closing is attempted once, as the last call.
    The one exception: when no session is given and creating one raises,
    that is the only call made. *)
Theorem writers_close_the_working_session
    (db : Database) (given : option session) t :
  let s := working_session db given t in
  let closes {A} (r : completion A * list line) :=
    (given = None /\ exists x, snd r = t ++ [Threw new_session x])
    \/ exists pre cl,
         snd r = t ++ creation_lines given ++ pre ++ [cl]
         /\ op_of cl = close s
         /\ ~ In (close s) (ops pre) in
  (forall e, closes (save db e given t))
  /\ (forall es, closes (save_all db es given t))
  /\ (forall e, closes (delete db e given t)).
Proof.
  cbv zeta.
  assert (H : forall o, (forall s, writes (o s) = true) ->
              (given = None
               /\ exists x, snd (write_through db o given t)
                            = t ++ [Threw new_session x])
              \/ exists pre cl,
                   snd (write_through db o given t)
                     = t ++ creation_lines given ++ pre ++ [cl]
                   /\ op_of cl = close (working_session db given t)
                   /\ ~ In (close (working_session db given t)) (ops pre)).
  { intros o Hw. destruct (@write_through_closes db o given t Hw)
      as [(Hg & x & E) | H]; [left | right; exact H].
    split; [exact Hg |]. exists x. rewrite E. reflexivity. }
  split; [| split].
  - intros e.
    assert (E : snd (save db e given t)
                = snd (write_through db (fun s' => add s' e) given t)).
    { unfold save, write_through, bind.
      destruct (session_or_create db given t) as [[s | x] t1]; [| reflexivity].
      destruct (_commit_operation_in_session db (fun s' => call db (add s' e)) s t1)
        as [[b | x] t2] eqn:Ec; unfold one_call; rewrite Ec; reflexivity. }
    rewrite E. apply (H (fun s' => add s' e)). reflexivity.
  - intros es. apply (H (fun s' => add_all s' es)). reflexivity.
  - intros e. apply (H (fun s' => delete_entity s' e)). reflexivity.
Qed.

Lemma call_for_paths db {A} (c : op) (f : list line -> A) t :
  call_for db c f t = (Returns (f t), t ++ [Done c])
  \/ exists x, call_for db c f t = (Raises x, t ++ [Threw c x]).
Proof. unfold call_for. destruct (throws db t c); eauto. Qed.

Lemma creation_reads given :
  Forall (fun l => reads_only (op_of l) = true) (creation_lines given).
Proof. destruct given; repeat constructor. Qed.

Lemma creation_not_new given :
  given <> None -> ~ In new_session (ops (creation_lines given)).
Proof. destruct given; [intros _ [] | congruence]. Qed.

Lemma query_reads_through {A} db q fetch
      (result : list line -> session -> statement -> A) given t :
  (forall s, reads_only (fetch s q) = true) ->
  (forall s, fetch s q <> new_session) ->
  reads_through db q fetch result given t (query db q fetch result given t).
Proof.
  intros Hf Hn. unfold reads_through, query, bind.
  destruct (session_or_create_paths db given t) as [E | (Hg & x & E)]; rewrite E.
  - set (s := working_session db given t).
    destruct (call_paths db (exec s q) (t ++ creation_lines given))
      as [Ee | [x Ee]]; rewrite Ee.
    + destruct (call_for_paths db (fetch s q) (fun t0 => result t0 s q)
                  ((t ++ creation_lines given) ++ [Done (exec s q)]))
        as [Ef | [x Ef]]; rewrite Ef; cbn [fst snd].
      * exists (creation_lines given ++ [Done (exec s q); Done (fetch s q)]).
        split; [rewrite <- !app_assoc; reflexivity |].
        split; [apply Forall_app; split;
                [apply creation_reads | repeat constructor; apply Hf] |].
        split.
        -- intros Hgiven Hin. unfold ops in Hin. rewrite map_app in Hin.
           apply in_app_or in Hin as [Hin | Hin].
           ++ exact (creation_not_new Hgiven Hin).
           ++ cbn in Hin. destruct Hin as [Hin | [Hin | []]];
                [discriminate Hin | exact (Hn s Hin)].
        -- intros v Hv. injection Hv as <-. split; [reflexivity |].
           rewrite <- app_assoc. reflexivity.
      * exists (creation_lines given ++ [Done (exec s q); Threw (fetch s q) x]).
        split; [rewrite <- !app_assoc; reflexivity |].
        split; [apply Forall_app; split;
                [apply creation_reads | repeat constructor; apply Hf] |].
        split; [| intros v Hv; discriminate Hv].
        intros Hgiven Hin. unfold ops in Hin. rewrite map_app in Hin.
        apply in_app_or in Hin as [Hin | Hin].
        -- exact (creation_not_new Hgiven Hin).
        -- cbn in Hin. destruct Hin as [Hin | [Hin | []]];
             [discriminate Hin | exact (Hn s Hin)].
    + cbn [fst snd]. exists (creation_lines given ++ [Threw (exec s q) x]).
      split; [rewrite <- !app_assoc; reflexivity |].
      split; [apply Forall_app; split;
              [apply creation_reads | repeat constructor] |].
      split; [| intros v Hv; discriminate Hv].
      intros Hgiven Hin. unfold ops in Hin. rewrite map_app in Hin.
      apply in_app_or in Hin as [Hin | Hin].
      * exact (creation_not_new Hgiven Hin).
      * cbn in Hin. destruct Hin as [Hin | []]. discriminate Hin.
  - cbn [fst snd]. exists [Threw new_session x].
    split; [reflexivity |]. split; [repeat constructor |].
    split; [congruence | intros v Hv; discriminate Hv].
Qed.

(** X19. The five finders only read: whatever happens they make no call
    but the creation of a session, the execution of their statement and
    the fetching of its result -- in particular they never commit, roll
    back or close, so that a session they created themselves is left open.
    Given a session they create none.  When they return, they have executed
    their statement ([id == id], [id in ids], everything, or the statement
    given) on the working session and return what was fetched from it. *)
Theorem finders_only_read_and_never_close
    (db : Database) (given : option session) t :
  (forall id,
      reads_through db (select_where_id_eq id) result_first (first_row db)
                    given t (find_by_id db id given t))
  /\ (forall ids,
         reads_through db (select_where_id_in ids) result_all (all_rows db)
                       given t (find_all_by_ids db ids given t))
  /\ reads_through db select_all result_all (all_rows db)
                   given t (find_all db given t)
  /\ (forall q,
         reads_through db q result_first (first_row db)
                       given t (_find_by db q given t))
  /\ (forall q,
         reads_through db q result_iterate (all_rows db)
                       given t (_find_all_by db q given t)).
Proof.
  repeat split; intros;
    match goal with
    | |- reads_through ?db ?q ?fetch ?result ?given ?t _ =>
        apply (@query_reads_through _ db q fetch result given t);
        [reflexivity | discriminate]
    end.
Qed.

Lemma finders_only_read_and_never_close_witness :
  [Done new_session; Done (exec 0 (select_where_id_eq 3));
   Done (result_first 0 (select_where_id_eq 3))]
  = creation_lines None
      ++ [Done (exec 0 (select_where_id_eq 3));
          Done (result_first 0 (select_where_id_eq 3))]
  /\ Some "row"
     = first_row healthy_database
         ([] ++ creation_lines None ++ [Done (exec 0 (select_where_id_eq 3))])
         0 (select_where_id_eq 3).
Proof.
  destruct (@finders_only_read_and_never_close healthy_database None [])
    as [H _].
  destruct (H 3) as (new & E & _ & _ & Hv).
  assert (En : new = [Done new_session; Done (exec 0 (select_where_id_eq 3));
                      Done (result_first 0 (select_where_id_eq 3))]).
  { apply (app_inv_head []). rewrite <- E. reflexivity. }
  rewrite <- En at 1. apply (Hv (Some "row")). reflexivity.
Defined.

End CrudFacts.
